(** * devdonalds.ts : the cookbook registry and the recipe resolver

    A shallow embedding of [src/backend/ts_template/devdonalds.ts].

    Conventions of the embedding.
    - A JavaScript string is a [string]; a character is a code unit below
      256.
    - A JavaScript number is an integer [Z], as in the data model of the
      cookbook; the arithmetic of the code is the arithmetic of [Z] as long
      as the values stay below 2^53.  The one other number the code can
      produce, [NaN], is a constructor of [number].
    - [undefined] is [None].
    - A thrown exception is the [Throw] outcome of [result].
    - [inMemoryCookbook] is threaded explicitly through the two handlers.
    - The recursion of [gatherRecipeData] is bounded by the depth of the
      call stack, the parameter [fuel]; the engine raises [RangeError]
      when the stack is exhausted. *)

From Stdlib Require Import List String Ascii ZArith Lia Bool Arith.
From Stdlib Require Import DecimalString Permutation Wellfounded.
Import ListNotations.

Set Warnings "-register-all".

Open Scope string_scope.
Open Scope Z_scope.

(* ================================================================= *)
(** ** Task 1 : [parse_handwriting] *)

(** The characters matched by the regular expression class [\s], which are
    also the ones removed by [String.prototype.trim]; below 256 they are
    TAB, LF, VT, FF, CR, SPACE and NO-BREAK SPACE. *)
Definition is_space (c : ascii) : bool :=
  let n := nat_of_ascii c in
  ((9 <=? n)%nat && (n <=? 13)%nat) || (n =? 32)%nat || (n =? 160)%nat.

Definition is_upper (c : ascii) : bool :=
  let n := nat_of_ascii c in (65 <=? n)%nat && (n <=? 90)%nat.

Definition is_lower (c : ascii) : bool :=
  let n := nat_of_ascii c in (97 <=? n)%nat && (n <=? 122)%nat.

(** [[A-Za-z]] *)
Definition is_letter (c : ascii) : bool := is_upper c || is_lower c.

(** [[-_]] *)
Definition is_dash (c : ascii) : bool :=
  let n := nat_of_ascii c in (n =? 45)%nat || (n =? 95)%nat.

(** [toUpperCase] and [toLowerCase] on one character.  The code applies
    them to words made of letters only (see [kept_chars]), where they are
    the ASCII case mappings. *)
Definition upper_char (c : ascii) : ascii :=
  if is_lower c then ascii_of_nat (nat_of_ascii c - 32) else c.

Definition lower_char (c : ascii) : ascii :=
  if is_upper c then ascii_of_nat (nat_of_ascii c + 32) else c.

Fixpoint map_string (f : ascii -> ascii) (s : string) : string :=
  match s with
  | EmptyString => EmptyString
  | String c r => String (f c) (map_string f r)
  end.

Definition toUpperCase : string -> string := map_string upper_char.
Definition toLowerCase : string -> string := map_string lower_char.

(** [s.replace(/[-_]/g, ' ')] *)
Definition replace_dashes : string -> string :=
  map_string (fun c => if is_dash c then " "%char else c).

(** [s.replace(/[^A-Za-z\s]/g, '')] *)
Fixpoint remove_non_letters (s : string) : string :=
  match s with
  | EmptyString => EmptyString
  | String c r =>
      if is_letter c || is_space c then String c (remove_non_letters r)
      else remove_non_letters r
  end.

Fixpoint trimStart (s : string) : string :=
  match s with
  | EmptyString => EmptyString
  | String c r => if is_space c then trimStart r else s
  end.

Fixpoint trimEnd (s : string) : string :=
  match s with
  | EmptyString => EmptyString
  | String c r =>
      match trimEnd r with
      | EmptyString => if is_space c then EmptyString else String c EmptyString
      | r' => String c r'
      end
  end.

Definition trim (s : string) : string := trimEnd (trimStart s).

(** [s.replace(/\s+/g, ' ')]: every maximal run of white space becomes one
    space; the space is emitted at the last character of the run. *)
Fixpoint squash_spaces (s : string) : string :=
  match s with
  | EmptyString => EmptyString
  | String c r =>
      if is_space c then
        match r with
        | String c' _ => if is_space c' then squash_spaces r
                         else String " " (squash_spaces r)
        | EmptyString => String " " EmptyString
        end
      else String c (squash_spaces r)
  end.

(** [s.split(' ')]: the pieces between the spaces, empty pieces included;
    the result is never the empty array. *)
Fixpoint split_space (s : string) : list string :=
  match s with
  | EmptyString => [EmptyString]
  | String c r =>
      if Ascii.eqb c " " then EmptyString :: split_space r
      else match split_space r with
           | w :: ws => String c w :: ws
           | [] => [String c EmptyString]
           end
  end.

(** [word.charAt(0)] and [word.slice(1)] *)
Definition charAt0 (w : string) : string :=
  match w with
  | EmptyString => EmptyString
  | String c _ => String c EmptyString
  end.

Definition slice1 (w : string) : string :=
  match w with
  | EmptyString => EmptyString
  | String _ r => r
  end.

Definition capitalise (word : string) : string :=
  let firstChar := toUpperCase (charAt0 word) in
  let rest := toLowerCase (slice1 word) in
  firstChar ++ rest.

(** [words.join(' ')] *)
Definition join_space (ws : list string) : string := String.concat " " ws.

Definition is_empty (s : string) : bool :=
  match s with EmptyString => true | _ => false end.

Definition parse_handwriting (recipeName : string) : option string :=
  if is_empty (trim recipeName) then None else
  let result := replace_dashes recipeName in
  let result := remove_non_letters result in
  let result := squash_spaces (trim result) in
  if is_empty result then None else
  let result := join_space (map capitalise (split_space result)) in
  if (0 <? Z.of_nat (String.length result)) then Some result else None.

(** *** The contract of [normalizeName], after the specification *)

(** A separator ends a word: white space, [-] and [_]. *)
Definition is_separator (c : ascii) : bool := is_space c || is_dash c.

Definition cons_word (w : string) (ws : list string) : list string :=
  if is_empty w then ws else w :: ws.

(** [scan s] is the word that starts at the head of [s] (empty when [s]
    starts with a separator) and the words after it.  Letters extend a
    word, separators end it, every other character is dropped. *)
Fixpoint scan (s : string) : string * list string :=
  match s with
  | EmptyString => (EmptyString, [])
  | String c r =>
      let (w, ws) := scan r in
      if is_letter c then (String c w, ws)
      else if is_separator c then (EmptyString, cons_word w ws)
      else (w, ws)
  end.

Definition words (s : string) : list string :=
  let (w, ws) := scan s in cons_word w ws.

(** First letter in upper case, the others in lower case. *)
Definition title_case (w : string) : string :=
  match w with
  | EmptyString => EmptyString
  | String c r => String (upper_char c) (map_string lower_char r)
  end.

Definition normalizeName_spec (raw : string) : option string :=
  match words raw with
  | [] => None
  | ws => Some (String.concat " " (map title_case ws))
  end.

(* ================================================================= *)
(** ** The request payloads *)

(** A parsed JSON document ([express.json()] hands the handler the result
    of [JSON.parse]).  The fields of [JObj] are the own properties of the
    parsed object.  A number is an integer: the fractions and the values
    from [2 ^ 53] up that [JSON.parse] can also deliver are left out. *)
Inductive json : Type :=
| JNull
| JBool (b : bool)
| JNum (z : Z)
| JStr (s : string)
| JArr (items : list json)
| JObj (fields : list (string * json)).

(** The exceptions the code can raise.  [MissingItem] and [InvalidType]
    are the two [Error]s of [gatherRecipeData]; [TypeError] is raised by the
    engine when a property of [null] or [undefined] is read or when
    [undefined] is iterated; [RangeError] when the call stack is exhausted. *)
Inductive exn : Type :=
| MissingItem (itemName : string)
| InvalidType (typeName itemName : string)
| TypeError
| RangeError.

Inductive result (A : Type) : Type :=
| Ok (a : A)
| Throw (e : exn).
Arguments Ok {A} a.
Arguments Throw {A} e.

Definition bind {A B : Type} (r : result A) (k : A -> result B) : result B :=
  match r with
  | Ok a => k a
  | Throw e => Throw e
  end.

Notation "'let*' x ':=' r 'in' k" := (bind r (fun x => k))
  (at level 10, x pattern, r at level 100, k at level 200).

Fixpoint assoc {A : Type} (k : string) (l : list (string * A)) : option A :=
  match l with
  | [] => None
  | (k', v) :: r => if String.eqb k' k then Some v else assoc k r
  end.

(** [v.k] for one of the keys the handlers read ([type], [name],
    [cookTime], [requiredItems], [quantity]): none of them is a property of
    a prototype of a JSON value, so the read yields the own property of an
    object, [undefined] on an array or a primitive, and throws on [null]. *)
Definition get_prop (v : json) (k : string) : result (option json) :=
  match v with
  | JNull => Throw TypeError
  | JObj fields => Ok (assoc k fields)
  | _ => Ok None
  end.

(** [!v] is false *)
Definition truthy (v : json) : bool :=
  match v with
  | JNull => false
  | JBool b => b
  | JNum z => negb (z =? 0)
  | JStr s => negb (is_empty s)
  | JArr _ | JObj _ => true
  end.

(** SameValueZero on two values taken at different places of one parsed
    document: primitives are compared by value, and two arrays or objects
    are different objects. *)
Definition same_value_zero (a b : option json) : bool :=
  match a, b with
  | None, None => true
  | Some JNull, Some JNull => true
  | Some (JBool x), Some (JBool y) => Bool.eqb x y
  | Some (JNum x), Some (JNum y) => x =? y
  | Some (JStr x), Some (JStr y) => String.eqb x y
  | _, _ => false
  end.

(** [new Set(l).size]: the number of elements that do not repeat an
    earlier one. *)
Fixpoint set_size (seen l : list (option json)) : nat :=
  match l with
  | [] => O
  | x :: r =>
      if existsb (same_value_zero x) seen then set_size seen r
      else S (set_size (x :: seen) r)
  end.

(* ================================================================= *)
(** ** The cookbook *)

Record requiredItem : Type := mkItem {
  item_name : string;
  quantity : Z
}.

(** One stored object.  [interface cookbookEntry] has [name] and [type];
    [ingredient] adds [cookTime], [recipe] adds [requiredItems]; a field
    an object does not have reads as [undefined]. *)
Record cookbookEntry : Type := mkEntry {
  name : string;
  type : string;
  cookTime : option Z;
  requiredItems : option (list requiredItem)
}.

Definition cookbook : Type := list cookbookEntry.

(** [inMemoryCookbook.find(e => e.name === n)] *)
Definition find_entry (inMemoryCookbook : cookbook) (n : string)
  : option cookbookEntry :=
  find (fun e => String.eqb (name e) n) inMemoryCookbook.

(** What a handler hands back to express: [res.status(c).send()],
    [res.json(body)], or an exception that leaves the handler, which the
    default error handler of express answers with status 500. *)
Inductive response (B : Type) : Type :=
| Status (code : Z)
| Json (body : B)
| Uncaught (e : exn).
Arguments Status {B} code.
Arguments Json {B} body.
Arguments Uncaught {B} e.

(* ================================================================= *)
(** ** Task 2 : [POST /entry] *)

(** The loop over [entry.requiredItems] of lines 128-137; on success, the
    array as the resolver reads it later. *)
Fixpoint validate_items (items : list json) : option (list requiredItem) :=
  match items with
  | [] => Some []
  | item :: rest =>
      if negb (truthy item) then None else
      match get_prop item "name", get_prop item "quantity" with
      | Ok (Some (JStr n)), Ok (Some (JNum q)) =>
          if q <? 1 then None else
          match validate_items rest with
          | Some l => Some (mkItem n q :: l)
          | None => None
          end
      | _, _ => None
      end
  end.

(** [entry.requiredItems.map((item) => item.name)] *)
Fixpoint item_names (items : list json) : result (list (option json)) :=
  match items with
  | [] => Ok []
  | item :: rest =>
      let* n := get_prop item "name" in
      let* ns := item_names rest in
      Ok (n :: ns)
  end.

(** The body of the handler: the cookbook after the request and the status
    sent, or the exception that leaves the handler.  The cookbook is
    mutated by the final [push] only. *)
Definition entry_handler (inMemoryCookbook : cookbook) (entry : json)
  : result (cookbook * Z) :=
  let reject := Ok (inMemoryCookbook, 400) in
  let* ty := get_prop entry "type" in
  let is_recipe := same_value_zero ty (Some (JStr "recipe")) in
  let is_ingredient := same_value_zero ty (Some (JStr "ingredient")) in
  if negb is_recipe && negb is_ingredient then reject else
  let* nm := get_prop entry "name" in
  match nm with
  | Some (JStr entry_name) =>
      if is_empty entry_name then reject else
      let nameExists :=
        existsb (fun c => String.eqb (name c) entry_name) inMemoryCookbook in
      if nameExists then reject else
      if is_ingredient then
        let* ct := get_prop entry "cookTime" in
        match ct with
        | Some (JNum ct) =>
            if ct <? 0 then reject else
            Ok ((inMemoryCookbook ++
                   [mkEntry entry_name "ingredient" (Some ct) None])%list, 200)
        | _ => reject
        end
      else
        let* ri := get_prop entry "requiredItems" in
        match ri with
        | Some (JArr items) =>
            let* itemNames := item_names items in
            if negb (set_size [] itemNames =? List.length itemNames)%nat
            then reject else
            match validate_items items with
            | None => reject
            | Some reqs =>
                Ok ((inMemoryCookbook ++
                       [mkEntry entry_name "recipe" None (Some reqs)])%list, 200)
            end
        | _ => reject
        end
  | _ => reject
  end.

Definition post_entry (inMemoryCookbook : cookbook) (entry : json)
  : cookbook * response unit :=
  match entry_handler inMemoryCookbook entry with
  | Ok (cb, code) => (cb, Status code)
  | Throw e => (inMemoryCookbook, Uncaught e)
  end.

(* ================================================================= *)
(** ** Task 3 : [GET /summary] *)

(** A number computed by the resolver.  [+] and [*] are those of the
    integers, which are those of the code as long as the results stay
    below [2 ^ 53]; beyond, the code rounds, and overflows to [Infinity]. *)
Inductive number : Type :=
| Num (z : Z)
| NaN.

Definition number_add (a b : number) : number :=
  match a, b with
  | Num x, Num y => Num (x + y)
  | _, _ => NaN
  end.

(** [ing.cookTime * neededQty]; [undefined * n] is [NaN]. *)
Definition cookTime_times (ct : option Z) (neededQty : Z) : number :=
  match ct with
  | Some c => Num (c * neededQty)
  | None => NaN
  end.

(** *** The object [aggregated] *)

(** A value held by a property of [aggregated]: a number, or the string
    that [+] produces once one operand is not a number. *)
Inductive value : Type :=
| VNum (z : Z)
| VStr (s : string).

(** The own properties of [aggregated], in creation order. *)
Definition object : Type := list (string * value).

(** The text that [+] converts a built-in function to (V8). *)
Definition native (f : string) : string :=
  "function " ++ f ++ "() { [native code] }".

(** [aggregated] is created by the literal [{}], so a property it does not
    own is read from [Object.prototype].  These are the properties of
    [Object.prototype], each with the string that [+] converts it to: its
    methods are functions, and [__proto__] reads [Object.prototype]
    itself. *)
Definition Object_prototype : list (string * string) :=
  [ ("constructor", native "Object");
    ("__defineGetter__", native "__defineGetter__");
    ("__defineSetter__", native "__defineSetter__");
    ("hasOwnProperty", native "hasOwnProperty");
    ("__lookupGetter__", native "__lookupGetter__");
    ("__lookupSetter__", native "__lookupSetter__");
    ("isPrototypeOf", native "isPrototypeOf");
    ("propertyIsEnumerable", native "propertyIsEnumerable");
    ("toString", native "toString");
    ("valueOf", native "valueOf");
    ("__proto__", "[object Object]");
    ("toLocaleString", native "toLocaleString") ].

(** The string that [+] converts an integer to: its decimal digits, after
    a [-] when it is negative (the engine switches to the exponent form
    from [10 ^ 21] up). *)
Definition number_to_string (n : Z) : string :=
  NilZero.string_of_int (Z.to_int n).

(** [(aggregated[k] || 0) + neededQty] *)
Definition or_zero_plus (aggregated : object) (k : string) (neededQty : Z)
  : value :=
  match assoc k aggregated with
  | Some (VNum q) => VNum (q + neededQty)
  | Some (VStr s) =>
      if is_empty s then VNum neededQty
      else VStr (s ++ number_to_string neededQty)
  | None =>
      match assoc k Object_prototype with
      | Some inherited => VStr (inherited ++ number_to_string neededQty)
      | None => VNum neededQty
      end
  end.

Fixpoint update (k : string) (v : value) (o : object) : object :=
  match o with
  | [] => []
  | (k', v') :: r =>
      if String.eqb k' k then (k', v) :: r else (k', v') :: update k v r
  end.

(** [aggregated[k] = v] for a primitive [v]: an own property is
    overwritten in place; otherwise one is created at the end, except for
    [__proto__], whose setter ignores a value that is not an object. *)
Definition assign (aggregated : object) (k : string) (v : value) : object :=
  match assoc k aggregated with
  | Some _ => update k v aggregated
  | None =>
      if String.eqb k "__proto__" then aggregated
      else (aggregated ++ [(k, v)])%list
  end.

(** [Object.entries(o)]: the properties whose key is an array index (the
    canonical decimal form of an integer in 0 .. 2^32 - 2) in ascending
    numeric order, then the others in creation order. *)
Definition array_index (k : string) : option Z :=
  match NilZero.uint_of_string k with
  | Some u =>
      let n := Z.of_N (N.of_uint u) in
      if String.eqb (number_to_string n) k && (n <=? 4294967294)
      then Some n else None
  | None => None
  end.

Fixpoint insert_index {A : Type} (i : Z) (x : A) (l : list (Z * A))
  : list (Z * A) :=
  match l with
  | [] => [(i, x)]
  | (j, y) :: r =>
      if i <? j then (i, x) :: l else (j, y) :: insert_index i x r
  end.

Fixpoint indexed_entries (o : object) : list (Z * (string * value)) :=
  match o with
  | [] => []
  | (k, v) :: r =>
      match array_index k with
      | Some i => insert_index i (k, v) (indexed_entries r)
      | None => indexed_entries r
      end
  end.

Definition named_entries (o : object) : object :=
  filter (fun kv => match array_index (fst kv) with
                    | Some _ => false
                    | None => true
                    end) o.

Definition Object_entries (o : object) : list (string * value) :=
  (map snd (indexed_entries o) ++ named_entries o)%list.

(** *** [gatherRecipeData] *)

Section Resolver.

(** The global the resolver reads. *)
Variable inMemoryCookbook : cookbook.

(** The [for] loop of [gatherRecipeData], with the recursive call
    abstracted: [recur subRecipe neededQty aggregated]. *)
Fixpoint gather_loop
    (recur : cookbookEntry -> Z -> object -> result (number * object))
    (multiplier : Z) (items : list requiredItem)
    (totalCookTime : number) (aggregated : object)
  : result (number * object) :=
  match items with
  | [] => Ok (totalCookTime, aggregated)
  | reqItem :: rest =>
      let neededQty := quantity reqItem * multiplier in
      match find_entry inMemoryCookbook (item_name reqItem) with
      | None => Throw (MissingItem (item_name reqItem))
      | Some referenced =>
          if String.eqb (type referenced) "ingredient" then
            let ing := referenced in
            gather_loop recur multiplier rest
              (number_add totalCookTime
                 (cookTime_times (cookTime ing) neededQty))
              (assign aggregated (name ing)
                 (or_zero_plus aggregated (name ing) neededQty))
          else if String.eqb (type referenced) "recipe" then
            let subRecipe := referenced in
            let* subResult := recur subRecipe neededQty aggregated in
            gather_loop recur multiplier rest
              (number_add totalCookTime (fst subResult)) (snd subResult)
          else
            Throw (InvalidType (type referenced) (name referenced))
      end
  end.

(** [fuel] is the depth of call stack available; a call that finds none
    raises [RangeError]. *)
Fixpoint gatherRecipeData (fuel : nat) (rec : cookbookEntry)
    (multiplier : Z) (aggregated : object)
  : result (number * object) :=
  match fuel with
  | O => Throw RangeError
  | S fuel' =>
      match requiredItems rec with
      | None => Throw TypeError
      | Some items =>
          gather_loop (gatherRecipeData fuel') multiplier items
            (Num 0) aggregated
      end
  end.

Record summary : Type := mkSummary {
  summary_name : string;
  summary_cookTime : number;
  ingredients : list (string * value)
}.

(** The handler; [req.query.name] is a string.  The handler leaves
    [inMemoryCookbook] as it found it. *)
Definition get_summary (fuel : nat) (query_name : string)
  : cookbook * response summary :=
  if is_empty query_name then (inMemoryCookbook, Status 400) else
  match find_entry inMemoryCookbook query_name with
  | None => (inMemoryCookbook, Status 400)
  | Some entry =>
      if negb (String.eqb (type entry) "recipe")
      then (inMemoryCookbook, Status 400) else
      match gatherRecipeData fuel entry 1 [] with
      | Ok (totalCookTime, aggregatedIngredients) =>
          let ingredientsArray := Object_entries aggregatedIngredients in
          (inMemoryCookbook,
           Json (mkSummary (name entry) totalCookTime ingredientsArray))
      | Throw _ => (inMemoryCookbook, Status 400)
      end
  end.

End Resolver.

(* ================================================================= *)
(** ** Auxiliary notions used by the statements *)

Fixpoint string_forallb (p : ascii -> bool) (s : string) : bool :=
  match s with
  | EmptyString => true
  | String c r => p c && string_forallb p r
  end.

Definition letter_or_space (c : ascii) : bool := is_letter c || is_space c.

(** The words after the first one, each preceded by its separating space. *)
Fixpoint tail_words (ws : list string) : string :=
  match ws with
  | [] => EmptyString
  | w :: r => String " " (w ++ tail_words r)
  end.

(** A word of the normalised name: a non-empty run of letters. *)
Definition is_word (w : string) : Prop :=
  string_forallb is_letter w = true /\ w <> "".

(** *** Insertion candidates, after the specification *)

(** An element of [requiredItems] that the specification accepts: an
    object whose [name] is a string and whose [quantity] is a number not
    below 1. *)
Definition valid_line (item : json) (line : requiredItem) : Prop :=
  exists fields,
    item = JObj fields /\
    assoc "name" fields = Some (JStr (item_name line)) /\
    assoc "quantity" fields = Some (JNum (quantity line)) /\
    1 <= quantity line.

(** An array of valid lines with pairwise distinct names. *)
Definition valid_lines (items : list json) (lines : list requiredItem) : Prop :=
  Forall2 valid_line items lines /\ NoDup (map item_name lines).

Definition stored_names (cb : cookbook) : list string := map name cb.

(** The request of a candidate that passes the checks of its type and
    of its name. *)
Definition passes_checks (cb : cookbook) (fields : list (string * json))
    (ty n : string) : Prop :=
  assoc "type" fields = Some (JStr ty) /\
  assoc "name" fields = Some (JStr n) /\
  n <> "" /\ ~ In n (stored_names cb).

(** *** The states of the cookbook *)

(** The cookbook starts empty and changes through [POST /entry] only. *)
Inductive reachable : cookbook -> Prop :=
| reachable_empty : reachable []
| reachable_post cb entry :
    reachable cb -> reachable (fst (post_entry cb entry)).

(** What [POST /entry] stores: an ingredient or a recipe, tagged as such. *)
Definition stored_ingredient (e : cookbookEntry) : Prop :=
  type e = "ingredient" /\ requiredItems e = None /\
  exists ct, cookTime e = Some ct /\ 0 <= ct.

Definition stored_recipe (e : cookbookEntry) : Prop :=
  type e = "recipe" /\ cookTime e = None /\
  exists lines, requiredItems e = Some lines /\
    Forall (fun l => 1 <= quantity l) lines /\ NoDup (map item_name lines).

Definition well_formed (cb : cookbook) : Prop :=
  NoDup (stored_names cb) /\
  Forall (fun e => name e <> "" /\ (stored_ingredient e \/ stored_recipe e)) cb.

(** *** The requirement graph *)

Section Requirements.

Variable inMemoryCookbook : cookbook.

(** [requires a b]: the entity found under the name [a] is a recipe with
    a line that names [b]. *)
Definition requires (a b : string) : Prop :=
  exists e lines line,
    find_entry inMemoryCookbook a = Some e /\
    type e = "recipe" /\
    requiredItems e = Some lines /\
    In line lines /\ item_name line = b.

(** No name requires itself, directly or transitively: the requirement
    relation is well founded. *)
Definition acyclic : Prop :=
  forall n, Acc (fun b a => requires a b) n.

(** The names required by a list of lines, directly or through the
    recipes they name. *)
Inductive reaches : list requiredItem -> string -> Prop :=
| reaches_line lines line :
    In line lines -> reaches lines (item_name line)
| reaches_sub lines line e sub n :
    In line lines ->
    find_entry inMemoryCookbook (item_name line) = Some e ->
    type e = "recipe" ->
    requiredItems e = Some sub ->
    reaches sub n ->
    reaches lines n.

(** A ranking of the names that decreases along every requirement. *)
Definition ranked (rank : string -> nat) : bool :=
  forallb (fun e =>
    match requiredItems e with
    | Some lines =>
        forallb (fun l => (rank (item_name l) <? rank (name e))%nat) lines
    | None => true
    end) inMemoryCookbook.

(** Every entity that a lookup can return carries one of the two tags. *)
Definition tagged : Prop :=
  forall n e, find_entry inMemoryCookbook n = Some e ->
              type e = "ingredient" \/ type e = "recipe".

(** [settles e n]: a stack of depth [n] is enough to expand [e]. *)
Definition settles (e : cookbookEntry) (n : nat) : Prop :=
  forall fuel, (n <= fuel)%nat ->
  forall m a, gatherRecipeData inMemoryCookbook fuel e m a <> Throw RangeError.

End Requirements.



(** *** Requests and cookbooks used as examples *)

Definition ingredient_request (n : string) (ct : Z) : json :=
  JObj [("type", JStr "ingredient"); ("name", JStr n); ("cookTime", JNum ct)].

Definition line_request (n : string) (q : Z) : json :=
  JObj [("name", JStr n); ("quantity", JNum q)].

Definition recipe_request (n : string) (lines : list json) : json :=
  JObj [("type", JStr "recipe"); ("name", JStr n);
        ("requiredItems", JArr lines)].

(** The cookbook after a sequence of [POST /entry] requests. *)
Definition post_all (cb : cookbook) (entries : list json) : cookbook :=
  fold_left (fun cb entry => fst (post_entry cb entry)) entries cb.

(** Flour, dough made of flour, bread made of dough and flour. *)
Definition bakery : cookbook :=
  post_all [] [ ingredient_request "Flour" 2;
                recipe_request "Dough" [line_request "Flour" 2];
                recipe_request "Bread" [line_request "Dough" 1;
                                        line_request "Flour" 1] ].

Definition bakery_rank (n : string) : nat :=
  if String.eqb n "Bread" then 2 else if String.eqb n "Dough" then 1 else 0.

(** A recipe that names an item nobody stored. *)
Definition pantry : cookbook :=
  post_all [] [ ingredient_request "Salt" 1;
                recipe_request "Brine" [line_request "Salt" 1;
                                        line_request "Water" 3];
                recipe_request "Pickles" [line_request "Brine" 2] ].

Definition pantry_rank (n : string) : nat :=
  if String.eqb n "Pickles" then 2 else if String.eqb n "Brine" then 1 else 0.

(** Ingredients named like properties of [Object.prototype]. *)
Definition salad_bar : cookbook :=
  post_all [] [ ingredient_request "toString" 1;
                recipe_request "Salad" [line_request "toString" 2] ].

Definition proto_bar : cookbook :=
  post_all [] [ ingredient_request "__proto__" 1;
                recipe_request "Salad" [line_request "__proto__" 2] ].

(** *** The expansion of a recipe, after the specification *)

Section Expansion.

Variable inMemoryCookbook : cookbook.

(** The resolver on a stack deep enough for every acyclic cookbook: one
    frame more than there are stored entities. *)
Definition gatherRecipeData_total (rec : cookbookEntry) (multiplier : Z)
    (aggregated : object) : result (number * object) :=
  gatherRecipeData inMemoryCookbook (S (List.length inMemoryCookbook))
    rec multiplier aggregated.

(** The contributions of the lines of a recipe: one per path of the
    requirement graph that ends in an ingredient, with the ingredient and
    the product of the quantities along the path, times [multiplier]. *)
Fixpoint lines_leaves
    (recur : cookbookEntry -> Z -> list (cookbookEntry * Z))
    (multiplier : Z) (lines : list requiredItem)
  : list (cookbookEntry * Z) :=
  match lines with
  | [] => []
  | line :: rest =>
      let neededQty := quantity line * multiplier in
      (match find_entry inMemoryCookbook (item_name line) with
       | Some e =>
           if String.eqb (type e) "ingredient" then [(e, neededQty)]
           else if String.eqb (type e) "recipe" then recur e neededQty
           else []
       | None => []
       end ++ lines_leaves recur multiplier rest)%list
  end.

Fixpoint leaves (depth : nat) (rec : cookbookEntry) (multiplier : Z)
  : list (cookbookEntry * Z) :=
  match depth with
  | O => []
  | S depth' =>
      match requiredItems rec with
      | Some lines => lines_leaves (leaves depth') multiplier lines
      | None => []
      end
  end.

End Expansion.

(** The quantity of the ingredient [k]: the contributions to [k] add. *)
Fixpoint needed (k : string) (ls : list (cookbookEntry * Z)) : Z :=
  match ls with
  | [] => 0
  | (e, q) :: r => (if String.eqb (name e) k then q else 0) + needed k r
  end.

(** The cook time: every contribution counts for its quantity times the
    cook time of its ingredient. *)
Fixpoint cook_time (ls : list (cookbookEntry * Z)) : number :=
  match ls with
  | [] => Num 0
  | (e, q) :: r => number_add (cookTime_times (cookTime e) q) (cook_time r)
  end.

(** An aggregation that holds numbers only. *)
Definition clean (o : object) : Prop :=
  forall k v, assoc k o = Some v -> exists z, v = VNum z.

(** A name that is not a property of [Object.prototype]. *)
Definition plain (k : string) : Prop := assoc k Object_prototype = None.

(** The quantity recorded for [k]. *)
Definition recorded (o : object) (k : string) : Z :=
  match assoc k o with
  | Some (VNum z) => z
  | _ => 0
  end.

Definition leaf_name (l : cookbookEntry * Z) : string := name (fst l).

(** [adds a ls a']: the aggregation [a'] is [a] with the contributions
    [ls] added, each under the name of its ingredient. *)
Definition adds (a : object) (ls : list (cookbookEntry * Z)) (a' : object)
  : Prop :=
  clean a' /\
  (forall k, recorded a' k = recorded a k + needed k ls) /\
  (forall k, In k (map fst a') <-> In k (map fst a) \/ In k (map leaf_name ls)) /\
  (NoDup (map fst a) -> NoDup (map fst a')).

(** The cook time as an integer, when every contribution is to an entity
    that has a cook time. *)
Fixpoint minutes (ls : list (cookbookEntry * Z)) : Z :=
  match ls with
  | [] => 0
  | (e, q) :: r =>
      match cookTime e with
      | Some ct => ct * q
      | None => 0
      end + minutes r
  end.

Definition is_index (k : string) : bool :=
  match array_index k with
  | Some _ => true
  | None => false
  end.


(* ================================================================= *)
(** ** [POST /parse] *)

(** What the handler of [/parse] hands back: [res.status(c).send(text)],
    [res.json({ msg })], or an exception that leaves the handler. *)
Inductive parse_response : Type :=
| SendText (code : Z) (text : string)
| SendMsg (msg : string)
| Escapes (e : exn).

(** [const { input } = req.body] and the call of [parse_handwriting].  The
    first statement of [parse_handwriting] is [recipeName.trim()], which
    raises a [TypeError] when [recipeName] is [undefined] or a JSON value
    other than a string (none has a method [trim]). *)
Definition post_parse (body : json) : parse_response :=
  match get_prop body "input" with
  | Throw e => Escapes e
  | Ok (Some (JStr input)) =>
      match parse_handwriting input with
      | None => SendText 400 "this string is cooked"
      | Some parsed_string => SendMsg parsed_string
      end
  | Ok _ => Escapes TypeError
  end.

(** A word as [parse_handwriting] writes it: an upper-case letter followed
    by lower-case letters. *)
Definition titled (w : string) : bool :=
  match w with
  | EmptyString => false
  | String c r => is_upper c && string_forallb is_lower r
  end.

(** *** Notions used by the statements on the resolver *)

(** Two outcomes of the resolver of the same kind: the same exception, or
    two successes whose aggregations are related by [R]. *)
Definition same_outcome (R : object -> object -> Prop)
    (r r' : result (number * object)) : Prop :=
  match r, r' with
  | Ok p, Ok p' => R (snd p) (snd p')
  | Throw x, Throw y => x = y
  | _, _ => False
  end.

(** The integers below [2 ^ 53] are numbers of the code, and a sum or a
    product of two of them that stays below it is computed exactly. *)
Definition exact_limit : Z := 2 ^ 53.

(** A recipe that requires itself. *)
Definition ouroboros : cookbook :=
  post_all [] [ recipe_request "Ouroboros" [line_request "Ouroboros" 1] ].

(** The cook time of one unit of the entity stored under [k]; 0 when there
    is none. *)
Definition unit_cook_time (cb : cookbook) (k : string) : Z :=
  match find_entry cb k with
  | Some e => match cookTime e with Some ct => ct | None => 0 end
  | None => 0
  end.

(** The cook time of a list of ingredients: for each one listed with a
    number, that number of times the cook time stored for it. *)
Fixpoint price (cb : cookbook) (ings : list (string * value)) : Z :=
  match ings with
  | [] => 0
  | (k, v) :: r =>
      match v with
      | VNum z => unit_cook_time cb k * z
      | VStr _ => 0
      end + price cb r
  end.

(** [sum_over f g ks] is the sum of [f k * g k] for [k] in [ks]. *)
Fixpoint sum_over (f g : string -> Z) (ks : list string) : Z :=
  match ks with
  | [] => 0
  | k :: r => f k * g k + sum_over f g r
  end.

(* ================================================================= *)
(** * Properties *)

(** ** Task 1 *)

Ltac ascii_cases c :=
  destruct c as [[|] [|] [|] [|] [|] [|] [|] [|]];
  vm_compute; try reflexivity; try discriminate; auto.

Lemma letter_not_space c : is_letter c = true -> is_space c = false.
Proof. ascii_cases c. Qed.

Lemma letter_not_dash c : is_letter c = true -> is_dash c = false.
Proof. ascii_cases c. Qed.

Lemma dash_not_space c : is_dash c = true -> is_space c = false.
Proof. ascii_cases c. Qed.

Lemma letter_not_blank c : is_letter c = true -> Ascii.eqb c " " = false.
Proof. ascii_cases c. Qed.

Lemma is_empty_true s : is_empty s = true -> s = EmptyString.
Proof. destruct s; simpl; congruence. Qed.

Lemma append_empty_r (s : string) : s ++ "" = s.
Proof. induction s; simpl; congruence. Qed.

(** The two replacements do not change the words of the input. *)
Lemma scan_filtered s :
  scan (remove_non_letters (replace_dashes s)) = scan s.
Proof.
  unfold replace_dashes.
  induction s as [|c r IH]; [reflexivity|].
  cbn [map_string remove_non_letters scan].
  destruct (is_dash c) eqn:Hd.
  - change (is_letter " " || is_space " ") with true. cbn iota.
    cbn [scan]. rewrite IH. destruct (scan r) as [w ws].
    change (is_letter " ") with false. cbn iota.
    change (is_separator " ") with true. cbn iota.
    destruct (is_letter c) eqn:Hl.
    + apply letter_not_dash in Hl. congruence.
    + unfold is_separator. rewrite Hd, orb_true_r. reflexivity.
  - destruct (is_letter c) eqn:Hl; cbn [orb].
    + cbn [scan]. rewrite IH, Hl. reflexivity.
    + destruct (is_space c) eqn:Hs.
      * cbn [scan]. rewrite IH, Hl. reflexivity.
      * rewrite IH. destruct (scan r) as [w ws].
        unfold is_separator. rewrite Hs, Hd. reflexivity.
Qed.

(** After the two replacements only letters and white space are left. *)
Lemma kept_chars s :
  string_forallb letter_or_space (remove_non_letters s) = true.
Proof.
  induction s as [|c r IH]; [reflexivity|].
  cbn [remove_non_letters].
  destruct (is_letter c || is_space c) eqn:H; [|exact IH].
  cbn [string_forallb]. unfold letter_or_space at 1. rewrite H. exact IH.
Qed.

Lemma trimStart_chars p s :
  string_forallb p s = true -> string_forallb p (trimStart s) = true.
Proof.
  induction s as [|c r IH]; [reflexivity|].
  intros H. cbn [trimStart]. destruct (is_space c); [|exact H].
  apply IH. cbn [string_forallb] in H. apply andb_true_iff in H. tauto.
Qed.

Lemma trimEnd_not_space c r :
  is_space c = false -> trimEnd (String c r) = String c (trimEnd r).
Proof.
  intros H. cbn [trimEnd]. destruct (trimEnd r); [rewrite H|]; reflexivity.
Qed.

(** [trimEnd] keeps the head of a string it does not empty. *)
Lemma trimEnd_head r c u :
  trimEnd r = String c u -> exists r0, r = String c r0.
Proof.
  destruct r as [|c0 r0]; [discriminate|].
  cbn [trimEnd]. destruct (trimEnd r0).
  - destruct (is_space c0); [discriminate|]. intros [= <- _]. eauto.
  - intros [= <- _]. eauto.
Qed.

Lemma scan_head_space c r : is_space c = true -> fst (scan (String c r)) = "".
Proof.
  intros H. cbn [scan]. destruct (scan r) as [w ws].
  destruct (is_letter c) eqn:Hl.
  - apply letter_not_space in Hl. congruence.
  - unfold is_separator. rewrite H. reflexivity.
Qed.

Lemma tail_words_empty ws : tail_words ws = "" -> ws = [].
Proof. destruct ws; [reflexivity|discriminate]. Qed.

Lemma append_is_empty (a b : string) : a ++ b = "" -> a = "" /\ b = "".
Proof. destruct a; simpl; [auto|discriminate]. Qed.

Lemma squash_space_cons c c' u :
  is_space c = true ->
  squash_spaces (String c (String c' u)) =
  if is_space c' then squash_spaces (String c' u)
  else String " " (squash_spaces (String c' u)).
Proof. intros H. cbn [squash_spaces]. rewrite H. reflexivity. Qed.

(** White space squashed after the right trim, in terms of the words. *)
Lemma squash_trimEnd t :
  string_forallb letter_or_space t = true ->
  squash_spaces (trimEnd t) = fst (scan t) ++ tail_words (snd (scan t)).
Proof.
  induction t as [|c r IH]; [reflexivity|].
  cbn [string_forallb]. intros H. apply andb_true_iff in H as [Hc Hr].
  specialize (IH Hr).
  destruct (is_space c) eqn:Hs.
  - (* a white space at the head *)
    assert (Hscan : scan (String c r) =
                    ("", cons_word (fst (scan r)) (snd (scan r)))).
    { cbn [scan]. destruct (scan r) as [w ws]. cbn [fst snd].
      destruct (is_letter c) eqn:Hl.
      - apply letter_not_space in Hl. congruence.
      - unfold is_separator. rewrite Hs. reflexivity. }
    rewrite Hscan. cbn [fst snd append].
    cbn [trimEnd]. destruct (trimEnd r) as [|c' u] eqn:Hu.
    + rewrite Hs. cbn [squash_spaces] in *.
      symmetry in IH. apply append_is_empty in IH as [Hw Hws].
      apply tail_words_empty in Hws. rewrite Hw, Hws. reflexivity.
    + destruct (trimEnd_head _ _ _ Hu) as [r0 ->].
      rewrite (squash_space_cons _ _ _ Hs).
      destruct (is_space c') eqn:Hs'.
      * rewrite IH. rewrite (scan_head_space c' r0 Hs'). reflexivity.
      * rewrite IH. cbn [string_forallb] in Hr.
        apply andb_true_iff in Hr as [Hc' _]. unfold letter_or_space in Hc'.
        rewrite Hs', orb_false_r in Hc'.
        cbn [scan]. destruct (scan r0) as [w ws]. rewrite Hc'.
        reflexivity.
  - unfold letter_or_space in Hc. rewrite Hs, orb_false_r in Hc.
    rewrite (trimEnd_not_space _ _ Hs). cbn [squash_spaces]. rewrite Hs, IH.
    cbn [scan]. destruct (scan r) as [w ws]. rewrite Hc. reflexivity.
Qed.

Lemma words_trimStart s : words (trimStart s) = words s.
Proof.
  unfold words. induction s as [|c r IH]; [reflexivity|].
  cbn [trimStart]. destruct (is_space c) eqn:Hs; [|reflexivity].
  rewrite IH. cbn [scan]. destruct (scan r) as [w ws].
  destruct (is_letter c) eqn:Hl.
  - apply letter_not_space in Hl. congruence.
  - unfold is_separator. rewrite Hs. reflexivity.
Qed.

(** After the left trim the text is empty or starts with a word. *)
Lemma scan_trimStart s :
  string_forallb letter_or_space s = true ->
  trimStart s = "" \/ fst (scan (trimStart s)) <> "".
Proof.
  induction s as [|c r IH]; [auto|].
  cbn [string_forallb]. intros H. apply andb_true_iff in H as [Hc Hr].
  cbn [trimStart]. destruct (is_space c) eqn:Hs; [auto|].
  right. unfold letter_or_space in Hc. rewrite Hs, orb_false_r in Hc.
  cbn [scan]. destruct (scan r). rewrite Hc. discriminate.
Qed.

Lemma concat_tail_words w ws :
  String.concat " " (w :: ws) = w ++ tail_words ws.
Proof.
  revert w. induction ws as [|x r IH]; intros w.
  - simpl. now rewrite append_empty_r.
  - change (String.concat " " (w :: x :: r))
      with (w ++ " " ++ String.concat " " (x :: r)).
    rewrite IH. reflexivity.
Qed.

(** The normalised text before it is split: the words, one space apart. *)
Lemma squash_trim t :
  string_forallb letter_or_space t = true ->
  squash_spaces (trim t) = String.concat " " (words t).
Proof.
  intros H. unfold trim.
  rewrite (squash_trimEnd _ (trimStart_chars _ _ H)).
  rewrite <- (words_trimStart t). unfold words.
  destruct (scan_trimStart t H) as [-> | Hne]; [reflexivity|].
  destruct (scan (trimStart t)) as [w ws]. cbn [fst snd] in *.
  unfold cons_word. destruct w; [congruence|]. cbn [is_empty].
  now rewrite concat_tail_words.
Qed.

Lemma cons_word_Forall (P : string -> Prop) w ws :
  (w <> "" -> P w) -> Forall P ws -> Forall P (cons_word w ws).
Proof.
  intros Hw Hws. unfold cons_word. destruct w; cbn [is_empty]; [exact Hws|].
  constructor; [apply Hw; discriminate | exact Hws].
Qed.

(** Every word is a non-empty run of letters. *)
Lemma scan_words s :
  string_forallb is_letter (fst (scan s)) = true /\
  Forall is_word (snd (scan s)).
Proof.
  induction s as [|c r [IHw IHws]]; [split; [reflexivity|constructor]|].
  cbn [scan]. destruct (scan r) as [w ws]. cbn [fst snd] in *.
  destruct (is_letter c) eqn:Hl; [|destruct (is_separator c)].
  - cbn [fst snd string_forallb]. rewrite Hl. auto.
  - cbn [fst snd]. split; [reflexivity|].
    apply cons_word_Forall; [|exact IHws]. intros Hne. split; assumption.
  - cbn [fst snd]. auto.
Qed.

Lemma words_are_words s : Forall is_word (words s).
Proof.
  unfold words. pose proof (scan_words s) as [Hw Hws].
  destruct (scan s) as [w ws]. cbn [fst snd] in *.
  apply cons_word_Forall; [|exact Hws]. intros Hne. split; assumption.
Qed.

Lemma split_space_word w :
  string_forallb is_letter w = true -> split_space w = [w].
Proof.
  induction w as [|c r IH]; [reflexivity|].
  cbn [string_forallb]. intros H. apply andb_true_iff in H as [Hc Hr].
  cbn [split_space]. rewrite (letter_not_blank _ Hc), (IH Hr). reflexivity.
Qed.

Lemma split_space_app w x :
  string_forallb is_letter w = true ->
  split_space (w ++ String " " x) = w :: split_space x.
Proof.
  induction w as [|c r IH]; [reflexivity|].
  cbn [string_forallb]. intros H. apply andb_true_iff in H as [Hc Hr].
  cbn [append split_space]. rewrite (letter_not_blank _ Hc), (IH Hr).
  reflexivity.
Qed.

(** Splitting at the spaces gives the words back. *)
Lemma split_space_concat w ws :
  Forall is_word (w :: ws) ->
  split_space (String.concat " " (w :: ws)) = w :: ws.
Proof.
  revert w. induction ws as [|x r IH]; intros w H.
  - inversion H as [|? ? [Hw _] _]; subst. now apply split_space_word.
  - inversion H as [|? ? [Hw _] Hr]; subst.
    change (String.concat " " (w :: x :: r))
      with (w ++ String " " (String.concat " " (x :: r))).
    rewrite (split_space_app _ _ Hw), (IH _ Hr). reflexivity.
Qed.

Lemma capitalise_title_case w : capitalise w = title_case w.
Proof. destruct w; reflexivity. Qed.

Lemma trimEnd_empty_words u : trimEnd u = "" -> words u = [].
Proof.
  unfold words. induction u as [|c r IH]; [reflexivity|].
  cbn [trimEnd]. destruct (trimEnd r) eqn:Hr; [|discriminate].
  destruct (is_space c) eqn:Hs; [|discriminate]. intros _.
  specialize (IH eq_refl). cbn [scan]. destruct (scan r) as [w ws].
  destruct (is_letter c) eqn:Hl.
  - apply letter_not_space in Hl. congruence.
  - unfold is_separator. rewrite Hs. exact IH.
Qed.

Lemma words_filtered s :
  words (remove_non_letters (replace_dashes s)) = words s.
Proof. unfold words. now rewrite scan_filtered. Qed.

(** [parse_handwriting] computes the normalised name of the
    specification. *)
Lemma parse_handwriting_refines raw :
  parse_handwriting raw = normalizeName_spec raw.
Proof.
  unfold parse_handwriting, normalizeName_spec.
  destruct (is_empty (trim raw)) eqn:Hblank.
  - apply is_empty_true in Hblank. unfold trim in Hblank.
    apply trimEnd_empty_words in Hblank. rewrite words_trimStart in Hblank.
    now rewrite Hblank.
  - rewrite (squash_trim _ (kept_chars _)), words_filtered.
    pose proof (words_are_words raw) as Hws.
    destruct (words raw) as [|w ws]; [reflexivity|].
    rewrite (split_space_concat _ _ Hws).
    inversion Hws as [|? ? [_ Hne] _]; subst.
    rewrite concat_tail_words. destruct w as [|c r]; [congruence|].
    cbn [append is_empty]. unfold join_space.
    rewrite (map_ext _ _ capitalise_title_case). cbn [map].
    rewrite concat_tail_words. cbn [title_case append String.length].
    reflexivity.
Qed.

(* ================================================================= *)
(** ** Task 2 : the registry *)

Open Scope list_scope.

Lemma existsb_name_In cb n :
  existsb (fun c => String.eqb (name c) n) cb = true <-> In n (stored_names cb).
Proof.
  unfold stored_names. rewrite existsb_exists, in_map_iff.
  split; intros [e [H1 H2]]; exists e.
  - apply String.eqb_eq in H2. auto.
  - rewrite String.eqb_eq. auto.
Qed.

Lemma existsb_name_not_In cb n :
  existsb (fun c => String.eqb (name c) n) cb = false <-> ~ In n (stored_names cb).
Proof.
  rewrite <- existsb_name_In. destruct (existsb _ cb); split; congruence.
Qed.

Lemma find_entry_name cb n e : find_entry cb n = Some e -> name e = n.
Proof.
  unfold find_entry. intros H. apply find_some in H as [_ H].
  now apply String.eqb_eq.
Qed.

Lemma find_entry_In cb n e : find_entry cb n = Some e -> In e cb.
Proof. unfold find_entry. intros H. now apply find_some in H. Qed.

Lemma find_entry_None cb n :
  find_entry cb n = None <-> ~ In n (stored_names cb).
Proof.
  unfold find_entry, stored_names. induction cb as [|e r IH]; cbn [find map In].
  - tauto.
  - destruct (String.eqb (name e) n) eqn:E.
    + apply String.eqb_eq in E. split; [discriminate|tauto].
    + apply String.eqb_neq in E. tauto.
Qed.

Lemma find_entry_app cb cb' n :
  find_entry (cb ++ cb') n =
  match find_entry cb n with
  | Some e => Some e
  | None => find_entry cb' n
  end.
Proof.
  unfold find_entry. induction cb as [|e r IH]; cbn [find List.app].
  - reflexivity.
  - destruct (String.eqb (name e) n); auto.
Qed.

(** *** The check of the required items *)

Lemma existsb_same_string n (seen : list string) :
  existsb (same_value_zero (Some (JStr n)))
          (map (fun m => Some (JStr m)) seen) = true <-> In n seen.
Proof.
  rewrite existsb_exists. split.
  - intros [x [Hin Heq]]. apply in_map_iff in Hin as [m [<- Hm]].
    cbn in Heq. apply String.eqb_eq in Heq. now subst.
  - intros Hin. exists (Some (JStr n)). split.
    + apply in_map_iff. eauto.
    + cbn. apply String.eqb_refl.
Qed.

Lemma set_size_le seen l : (set_size seen l <= List.length l)%nat.
Proof.
  revert seen. induction l as [|x r IH]; intros seen; cbn [set_size List.length].
  - lia.
  - destruct (existsb _ seen); [specialize (IH seen) | specialize (IH (x :: seen))]; lia.
Qed.

(** On names that are strings, the [Set] has the size of the array when
    and only when no name repeats. *)
Lemma set_size_strings (ns seen : list string) :
  let wrap := map (fun m => Some (JStr m)) in
  set_size (wrap seen) (wrap ns) = List.length (wrap ns) <->
  NoDup ns /\ (forall n, In n ns -> ~ In n seen).
Proof.
  cbv zeta. revert seen. induction ns as [|n r IH]; intros seen.
  - cbn. split; [intros _; split; [constructor|tauto] | reflexivity].
  - cbn [map set_size List.length].
    destruct (existsb _ (map _ seen)) eqn:E.
    + apply existsb_same_string in E. split.
      * intros H. pose proof (set_size_le (map (fun m => Some (JStr m)) seen)
                                (map (fun m => Some (JStr m)) r)). lia.
      * intros [_ H]. exfalso. apply (H n); [now left | exact E].
    + assert (Hn : ~ In n seen).
      { intros Hin. apply existsb_same_string in Hin. congruence. }
      change (Some (JStr n) :: map (fun m => Some (JStr m)) seen)
        with (map (fun m => Some (JStr m)) (n :: seen)).
      split.
      * intros H. injection H as H. apply (IH (n :: seen)) in H as [Hnd Hseen]. split.
        -- constructor; [|exact Hnd]. intros Hin. apply (Hseen n Hin). now left.
        -- intros m [<- | Hm]; [exact Hn|]. intros Hin. apply (Hseen m Hm). now right.
      * intros [Hnd Hseen]. f_equal. apply (IH (n :: seen)). inversion Hnd; subst. split; [assumption|].
        intros m Hm [<- | Hin]; [contradiction|]. apply (Hseen m); [now right|assumption].
Qed.

Lemma validate_items_valid items lines :
  validate_items items = Some lines -> Forall2 valid_line items lines.
Proof.
  revert lines. induction items as [|item rest IH]; intros lines; cbn [validate_items].
  - intros [= <-]. constructor.
  - destruct (negb (truthy item)); [discriminate|].
    destruct item as [| | | | |fields]; cbn [get_prop]; try discriminate.
    destruct (assoc "name" fields) as [[| | |n| |]|] eqn:Hn; try discriminate.
    destruct (assoc "quantity" fields) as [[| |q| | |]|] eqn:Hq; try discriminate.
    destruct (q <? 1) eqn:Hlt; [discriminate|].
    destruct (validate_items rest) as [l|]; [|discriminate].
    intros [= <-]. constructor; [|now apply IH].
    exists fields. cbn [item_name quantity]. apply Z.ltb_ge in Hlt. auto.
Qed.

Lemma valid_lines_validate items lines :
  Forall2 valid_line items lines -> validate_items items = Some lines.
Proof.
  induction 1 as [|item line items lines [fields (-> & Hn & Hq & Hge)] _ IH];
    [reflexivity|].
  cbn [validate_items truthy negb get_prop]. rewrite Hn, Hq.
  apply Z.ltb_ge in Hge. rewrite Hge, IH. now destruct line.
Qed.

Lemma valid_lines_names items lines :
  Forall2 valid_line items lines ->
  item_names items = Ok (map (fun m => Some (JStr m)) (map item_name lines)).
Proof.
  induction 1 as [|item line items lines [fields (-> & Hn & _)] _ IH];
    [reflexivity|].
  cbn [item_names get_prop bind map]. rewrite Hn, IH. reflexivity.
Qed.

(** *** [POST /entry] *)

Lemma is_empty_false s : s <> "" -> is_empty s = false.
Proof. destruct s; [congruence|reflexivity]. Qed.

Lemma post_entry_ingredient cb fields n :
  passes_checks cb fields "ingredient" n ->
  post_entry cb (JObj fields) =
  match assoc "cookTime" fields with
  | Some (JNum ct) =>
      if ct <? 0 then (cb, Status 400)
      else (cb ++ [mkEntry n "ingredient" (Some ct) None], Status 200)
  | _ => (cb, Status 400)
  end.
Proof.
  intros (Hty & Hn & Hne & Hnew).
  unfold post_entry, entry_handler. cbv zeta. cbn [get_prop bind].
  rewrite Hty, Hn. cbn [same_value_zero String.eqb Ascii.eqb Bool.eqb negb andb].
  rewrite (is_empty_false _ Hne).
  apply existsb_name_not_In in Hnew. rewrite Hnew.
  destruct (assoc "cookTime" fields) as [[| |ct| | |]|]; try reflexivity.
  destruct (ct <? 0); reflexivity.
Qed.

Lemma post_entry_recipe cb fields n :
  passes_checks cb fields "recipe" n ->
  post_entry cb (JObj fields) =
  match assoc "requiredItems" fields with
  | Some (JArr items) =>
      match item_names items with
      | Throw e => (cb, Uncaught e)
      | Ok itemNames =>
          if negb (set_size [] itemNames =? List.length itemNames)%nat
          then (cb, Status 400)
          else match validate_items items with
               | None => (cb, Status 400)
               | Some lines =>
                   (cb ++ [mkEntry n "recipe" None (Some lines)], Status 200)
               end
      end
  | _ => (cb, Status 400)
  end.
Proof.
  intros (Hty & Hn & Hne & Hnew).
  unfold post_entry, entry_handler. cbv zeta. cbn [get_prop bind].
  rewrite Hty, Hn. cbn [same_value_zero String.eqb Ascii.eqb Bool.eqb negb andb].
  rewrite (is_empty_false _ Hne).
  apply existsb_name_not_In in Hnew. rewrite Hnew.
  destruct (assoc "requiredItems" fields) as [[| | | |items|]|]; try reflexivity.
  destruct (item_names items) as [itemNames|e]; cbn [bind]; [|reflexivity].
  destruct (negb _); [reflexivity|].
  destruct (validate_items items); reflexivity.
Qed.

(** A request that is not refused comes from an object that passes the
    checks of its type and of its name. *)
Lemma post_entry_not_refused cb entry :
  post_entry cb entry = (cb, Status 400) \/
  (exists fields ty n, entry = JObj fields /\
     (ty = "ingredient" \/ ty = "recipe") /\ passes_checks cb fields ty n) \/
  (entry = JNull /\ post_entry cb entry = (cb, Uncaught TypeError)).
Proof.
  destruct entry as [| | | | |fields];
    try (left; reflexivity); [right; right; auto|].
  unfold post_entry, entry_handler. cbv zeta. cbn [get_prop bind].
  destruct (assoc "type" fields) as [[| | |ty| |]|] eqn:Hty;
    try (left; reflexivity).
  cbn [same_value_zero].
  destruct (negb (String.eqb ty "recipe") && negb (String.eqb ty "ingredient"))
    eqn:Htag; [left; reflexivity|].
  destruct (assoc "name" fields) as [[| | |n| |]|] eqn:Hn;
    try (left; reflexivity).
  destruct (is_empty n) eqn:Hne; [left; reflexivity|].
  destruct (existsb _ cb) eqn:Hex; [left; reflexivity|].
  right; left. exists fields, ty, n. split; [reflexivity|]. split.
  - apply andb_false_iff in Htag as [H|H]; apply negb_false_iff in H;
      apply String.eqb_eq in H; auto.
  - repeat split; auto.
    + intros ->. discriminate.
    + now apply existsb_name_not_In.
Qed.

(** The outcomes of an insertion. *)
Lemma post_entry_cases cb entry :
  post_entry cb entry = (cb, Status 400) \/
  (exists e, post_entry cb entry = (cb, Uncaught e)) \/
  (exists e, post_entry cb entry = (cb ++ [e], Status 200) /\
     name e <> "" /\ ~ In (name e) (stored_names cb) /\
     (stored_ingredient e \/ stored_recipe e)).
Proof.
  destruct (post_entry_not_refused cb entry)
    as [H | [(fields & ty & n & -> & Hty & Hp) | [_ H]]]; [auto| |eauto].
  pose proof Hp as (_ & _ & Hne & Hnew).
  destruct Hty as [-> | ->].
  - rewrite (post_entry_ingredient _ _ _ Hp).
    destruct (assoc "cookTime" fields) as [[| |ct| | |]|]; auto.
    destruct (ct <? 0) eqn:Hct; auto.
    right; right. eexists. split; [reflexivity|]. cbn [name].
    repeat split; auto. left. repeat split. exists ct.
    apply Z.ltb_ge in Hct. auto.
  - rewrite (post_entry_recipe _ _ _ Hp).
    destruct (assoc "requiredItems" fields) as [[| | | |items|]|]; auto.
    destruct (item_names items) as [itemNames|e] eqn:Hnames; [|eauto].
    destruct (negb _) eqn:Hsize; auto.
    destruct (validate_items items) as [lines|] eqn:Hval; auto.
    right; right. eexists. split; [reflexivity|]. cbn [name].
    repeat split; auto. right. repeat split. exists lines.
    apply validate_items_valid in Hval.
    rewrite (valid_lines_names _ _ Hval) in Hnames. injection Hnames as <-.
    apply negb_false_iff, Nat.eqb_eq in Hsize.
    apply (set_size_strings (map item_name lines) []) in Hsize as [Hnd _].
    repeat split; auto.
    clear -Hval. induction Hval as [|? ? ? ? (f & _ & _ & _ & Hq)]; auto.
Qed.

(** The cookbook changes on the answer 200 only. *)
Lemma post_entry_failure_keeps cb entry :
  snd (post_entry cb entry) <> Status 200 -> fst (post_entry cb entry) = cb.
Proof.
  destruct (post_entry_cases cb entry) as [-> | [[e ->] | (e & -> & _)]];
    cbn [fst snd]; congruence.
Qed.

(** An ingredient that passes the first checks is stored exactly when its
    [cookTime] is a number that is not negative. *)
Lemma ingredient_accepted_iff cb fields n :
  passes_checks cb fields "ingredient" n ->
  snd (post_entry cb (JObj fields)) = Status 200 <->
  exists ct, assoc "cookTime" fields = Some (JNum ct) /\ 0 <= ct.
Proof.
  intros Hp. rewrite (post_entry_ingredient _ _ _ Hp). split.
  - destruct (assoc "cookTime" fields) as [[| |ct| | |]|];
      cbn [snd]; try discriminate.
    destruct (ct <? 0) eqn:Hct; cbn [snd]; [discriminate|].
    intros _. exists ct. apply Z.ltb_ge in Hct. auto.
  - intros (ct & -> & Hct). apply Z.ltb_ge in Hct. now rewrite Hct.
Qed.

(** A recipe that passes the first checks is stored exactly when its
    [requiredItems] is an array of valid lines with distinct names. *)
Lemma recipe_accepted_iff cb fields n :
  passes_checks cb fields "recipe" n ->
  snd (post_entry cb (JObj fields)) = Status 200 <->
  exists items lines,
    assoc "requiredItems" fields = Some (JArr items) /\ valid_lines items lines.
Proof.
  intros Hp. rewrite (post_entry_recipe _ _ _ Hp). split.
  - destruct (assoc "requiredItems" fields) as [[| | | |items|]|];
      cbn [snd]; try discriminate.
    destruct (item_names items) as [itemNames|e] eqn:Hnames;
      cbn [snd]; [|discriminate].
    destruct (negb _) eqn:Hsize; cbn [snd]; [discriminate|].
    destruct (validate_items items) as [lines|] eqn:Hval;
      cbn [snd]; [|discriminate].
    intros _. exists items, lines. split; [reflexivity|].
    apply validate_items_valid in Hval. split; [exact Hval|].
    rewrite (valid_lines_names _ _ Hval) in Hnames. injection Hnames as <-.
    apply negb_false_iff, Nat.eqb_eq in Hsize.
    now apply (set_size_strings (map item_name lines) []) in Hsize.
  - intros (items & lines & -> & Hval & Hnd).
    rewrite (valid_lines_names _ _ Hval), (valid_lines_validate _ _ Hval).
    assert (Hsize : set_size [] (map (fun m => Some (JStr m)) (map item_name lines))
                    = List.length (map (fun m => Some (JStr m)) (map item_name lines))).
    { apply (set_size_strings (map item_name lines) []). split; [exact Hnd|auto]. }
    rewrite Hsize, Nat.eqb_refl. reflexivity.
Qed.

(** *** The three answers of [POST /entry] *)

Lemma passes_checks_object cb fields ty n :
  passes_checks cb fields ty n ->
  get_prop (JObj fields) "type" = Ok (Some (JStr ty)) /\
  get_prop (JObj fields) "name" = Ok (Some (JStr n)).
Proof. intros (Hty & Hn & _). cbn [get_prop]. now rewrite Hty, Hn. Qed.

(** The map of the items to their names throws exactly when an item is
    [null]. *)
Lemma item_names_throws items :
  (exists x, item_names items = Throw x) <-> In JNull items.
Proof.
  induction items as [|item rest IH]; cbn [item_names In].
  - split; [intros [x H]; discriminate | tauto].
  - destruct (get_prop item "name") as [n|y] eqn:Hn; cbn [bind].
    + assert (Hitem : item <> JNull) by (intros ->; discriminate).
      destruct (item_names rest) as [ns|y]; cbn [bind]; split.
      * intros [x H]. discriminate.
      * intros [H | H]; [congruence|]. apply IH in H as [x H]. discriminate.
      * intros _. right. apply IH. eauto.
      * eauto.
    + destruct item; try discriminate. split; [auto | eauto].
Qed.

Lemma item_names_TypeError items x :
  item_names items = Throw x -> x = TypeError.
Proof.
  induction items as [|item rest IH]; cbn [item_names]; [discriminate|].
  destruct item as [| | | | |fields]; cbn [get_prop bind];
    try (destruct (item_names rest); cbn [bind];
         [discriminate | intros [= <-]; now apply IH]).
  now intros [= <-].
Qed.

(** The stored entity of an accepted request. *)
Lemma post_entry_stored cb entry cb' :
  post_entry cb entry = (cb', Status 200) ->
  exists fields ty n e,
    entry = JObj fields /\ passes_checks cb fields ty n /\
    cb' = cb ++ [e] /\ name e = n /\ type e = ty /\
    ((ty = "ingredient" /\ requiredItems e = None /\
      exists ct, assoc "cookTime" fields = Some (JNum ct) /\
                 cookTime e = Some ct /\ 0 <= ct) \/
     (ty = "recipe" /\ cookTime e = None /\
      exists items lines,
        assoc "requiredItems" fields = Some (JArr items) /\
        requiredItems e = Some lines /\ valid_lines items lines)).
Proof.
  destruct (post_entry_not_refused cb entry)
    as [H | [(fields & ty & n & -> & Hty & Hp) | [_ H]]];
    [rewrite H; discriminate | | rewrite H; discriminate].
  intros Hpost. exists fields, ty, n. destruct Hty as [-> | ->].
  - rewrite (post_entry_ingredient _ _ _ Hp) in Hpost.
    destruct (assoc "cookTime" fields) as [[| |ct| | |]|] eqn:Hct;
      try discriminate.
    destruct (ct <? 0) eqn:Hlt; [discriminate|]. injection Hpost as <-.
    eexists. split; [reflexivity|]. split; [exact Hp|].
    do 3 (split; [reflexivity|]).
    left. do 2 (split; [reflexivity|]). exists ct. apply Z.ltb_ge in Hlt. auto.
  - rewrite (post_entry_recipe _ _ _ Hp) in Hpost.
    destruct (assoc "requiredItems" fields) as [[| | | |items|]|] eqn:Hri;
      try discriminate.
    destruct (item_names items) as [itemNames|x] eqn:Hnames; [|discriminate].
    destruct (negb _) eqn:Hsize; [discriminate|].
    destruct (validate_items items) as [lines|] eqn:Hval; [|discriminate].
    injection Hpost as <-.
    eexists. split; [reflexivity|]. split; [exact Hp|].
    do 3 (split; [reflexivity|]).
    right. do 2 (split; [reflexivity|]). exists items, lines.
    do 2 (split; [reflexivity|]). split.
    + now apply validate_items_valid.
    + apply validate_items_valid in Hval.
      rewrite (valid_lines_names _ _ Hval) in Hnames. injection Hnames as <-.
      apply negb_false_iff, Nat.eqb_eq in Hsize.
      now apply (set_size_strings (map item_name lines) []) in Hsize.
Qed.





(** *** The reachable cookbooks *)

Lemma well_formed_app cb e :
  well_formed cb ->
  name e <> "" -> ~ In (name e) (stored_names cb) ->
  stored_ingredient e \/ stored_recipe e ->
  well_formed (cb ++ [e]).
Proof.
  intros [Hnd Hall] Hne Hnew He. split.
  - unfold stored_names in *. rewrite map_app. cbn [map].
    apply NoDup_app; [exact Hnd | |].
    + constructor; [intros [] | constructor].
    + intros x Hx [<- | []]. contradiction.
  - apply Forall_app. split; [exact Hall|]. constructor; [auto | constructor].
Qed.

Lemma reachable_well_formed cb : reachable cb -> well_formed cb.
Proof.
  induction 1 as [|cb entry _ IH].
  - split; constructor.
  - destruct (post_entry_cases cb entry)
      as [-> | [[e ->] | (e & -> & Hne & Hnew & He)]]; cbn [fst]; auto.
    now apply well_formed_app.
Qed.

Lemma well_formed_find cb e :
  well_formed cb -> In e cb -> find_entry cb (name e) = Some e.
Proof.
  intros [Hnd _]. unfold find_entry, stored_names in *.
  induction cb as [|x r IH]; cbn [In find map] in *; [tauto|].
  inversion Hnd as [|? ? Hx Hr]; subst. intros [-> | Hin].
  - now rewrite String.eqb_refl.
  - destruct (String.eqb (name x) (name e)) eqn:E; [|auto].
    apply String.eqb_eq in E. exfalso. apply Hx. rewrite E.
    now apply in_map.
Qed.

Lemma well_formed_tag cb n e :
  well_formed cb -> find_entry cb n = Some e ->
  stored_ingredient e \/ stored_recipe e.
Proof.
  intros [_ Hall] Hfind. apply find_entry_In in Hfind.
  rewrite Forall_forall in Hall. now apply Hall.
Qed.

(* ================================================================= *)
(** ** Task 3 : the resolver *)

Section ResolverFacts.

Variable cb : cookbook.

Local Abbreviation gather := (gatherRecipeData cb).
Local Abbreviation loop := (gather_loop cb).

(** *** More stack does not change a result *)

Lemma gather_loop_mono recur recur' :
  (forall rec m a,
      recur rec m a <> Throw RangeError -> recur' rec m a = recur rec m a) ->
  forall items mult total agg,
    loop recur mult items total agg <> Throw RangeError ->
    loop recur' mult items total agg = loop recur mult items total agg.
Proof.
  intros Hrec. induction items as [|line rest IH]; intros mult total agg H;
    cbn [gather_loop] in *; [reflexivity|].
  destruct (find_entry cb (item_name line)) as [referenced|]; [|reflexivity].
  destruct (String.eqb (type referenced) "ingredient"); [now apply IH|].
  destruct (String.eqb (type referenced) "recipe"); [|reflexivity].
  destruct (recur referenced (quantity line * mult) agg) as [sub|e] eqn:E;
    cbn [bind] in H.
  - rewrite Hrec, E by (rewrite E; discriminate). cbn [bind]. now apply IH.
  - rewrite Hrec, E by (now rewrite E). reflexivity.
Qed.

Lemma gather_mono fuel :
  forall fuel' rec m a,
    (fuel <= fuel')%nat ->
    gather fuel rec m a <> Throw RangeError ->
    gather fuel' rec m a = gather fuel rec m a.
Proof.
  induction fuel as [|fuel IH]; intros fuel' rec m a Hle H.
  - cbn in H. congruence.
  - destruct fuel' as [|fuel']; [lia|]. cbn [gatherRecipeData] in *.
    destruct (requiredItems rec) as [items|]; [|reflexivity].
    apply gather_loop_mono; [|exact H].
    intros rec' m' a' H'. apply IH; [lia|exact H'].
Qed.

(** *** The stored tags *)

Lemma gather_loop_tagged recur t n :
  tagged cb ->
  (forall rec m a, recur rec m a <> Throw (InvalidType t n)) ->
  forall items mult total agg,
    loop recur mult items total agg <> Throw (InvalidType t n).
Proof.
  intros Htag Hrec. induction items as [|line rest IH]; intros mult total agg;
    cbn [gather_loop]; [discriminate|].
  destruct (find_entry cb (item_name line)) as [referenced|] eqn:Hfind;
    [|discriminate].
  destruct (String.eqb (type referenced) "ingredient") eqn:Hi; [apply IH|].
  destruct (String.eqb (type referenced) "recipe") eqn:Hr.
  - destruct (recur referenced (quantity line * mult) agg) as [sub|e] eqn:E;
      cbn [bind]; [apply IH|]. rewrite <- E. apply Hrec.
  - apply String.eqb_neq in Hi, Hr. destruct (Htag _ _ Hfind); contradiction.
Qed.

Lemma gather_tagged t n :
  tagged cb ->
  forall fuel rec m a, gather fuel rec m a <> Throw (InvalidType t n).
Proof.
  intros Htag. induction fuel as [|fuel IH]; intros rec m a;
    cbn [gatherRecipeData]; [discriminate|].
  destruct (requiredItems rec); [|discriminate].
  now apply gather_loop_tagged.
Qed.

(** *** The calls that can exhaust the stack *)


Lemma gather_loop_settles recur items :
  (forall line e,
      In line items -> find_entry cb (item_name line) = Some e ->
      type e = "recipe" ->
      forall m a, recur e m a <> Throw RangeError) ->
  forall mult total agg,
    loop recur mult items total agg <> Throw RangeError.
Proof.
  induction items as [|line rest IH]; intros Hrec mult total agg;
    cbn [gather_loop]; [discriminate|].
  assert (Hrest : forall mult total agg,
             loop recur mult rest total agg <> Throw RangeError).
  { apply IH. intros l e Hl. apply Hrec. now right. }
  destruct (find_entry cb (item_name line)) as [referenced|] eqn:Hfind;
    [|discriminate].
  destruct (String.eqb (type referenced) "ingredient"); [apply Hrest|].
  destruct (String.eqb (type referenced) "recipe") eqn:Hr; [|discriminate].
  apply String.eqb_eq in Hr.
  destruct (recur referenced (quantity line * mult) agg) as [sub|e] eqn:E;
    cbn [bind]; [apply Hrest|].
  rewrite <- E. apply (Hrec line); auto. now left.
Qed.

(** A ranking proves the graph acyclic. *)
Lemma ranked_acyclic rank : ranked cb rank = true -> acyclic cb.
Proof.
  intros Hr n.
  apply (Acc_incl string (fun b a => requires cb a b) (ltof string rank)).
  - intros b a (e & lines & line & Hfind & _ & Hl & Hin & <-).
    unfold ranked in Hr. rewrite forallb_forall in Hr.
    specialize (Hr e (find_entry_In _ _ _ Hfind)). rewrite Hl in Hr.
    rewrite forallb_forall in Hr. specialize (Hr line Hin).
    apply Nat.ltb_lt in Hr. now rewrite (find_entry_name _ _ _ Hfind) in Hr.
  - apply Wf_nat.well_founded_ltof.
Qed.

End ResolverFacts.

(** *** A bound on the depth of the stack *)

Section StackBound.

Variable cb : cookbook.

(** [below b a]: [a] requires [b], directly or transitively. *)
Local Abbreviation below :=
  (Relation_Operators.clos_trans string (fun b a => requires cb a b)).

Lemma acyclic_irreflexive : acyclic cb -> forall n, ~ below n n.
Proof.
  intros Hacc n.
  pose proof (Acc_clos_trans string _ n (Hacc n)) as H.
  induction H as [n _ IH]. intros Hn. exact (IH n Hn Hn).
Qed.

(** The recipes being expanded have distinct stored names, so there are
    no more of them than stored entities. *)
Lemma nested_settles :
  acyclic cb ->
  forall fuel path n e,
    find_entry cb n = Some e -> type e = "recipe" ->
    NoDup path -> incl path (stored_names cb) ->
    (forall p, In p path -> below n p) ->
    (List.length (stored_names cb) <= fuel + List.length path)%nat ->
    forall m a, gatherRecipeData cb fuel e m a <> Throw RangeError.
Proof.
  intros Hacc. induction fuel as [|fuel IH];
    intros path n e Hfind Ht Hnd Hincl Hbelow Hlen m a.
  all: assert (Hfresh : ~ In n path)
    by (intros Hin; exact (acyclic_irreflexive Hacc n (Hbelow n Hin))).
  all: assert (Hstored : In n (stored_names cb))
    by (rewrite <- (find_entry_name _ _ _ Hfind);
        apply in_map; exact (find_entry_In _ _ _ Hfind)).
  all: assert (Hcount : (S (List.length path) <= List.length (stored_names cb))%nat)
    by (apply (NoDup_incl_length (l := n :: path));
        [ now constructor
        | intros x [<- | Hx]; [exact Hstored | now apply Hincl] ]).
  - lia.
  - cbn [gatherRecipeData].
    destruct (requiredItems e) as [lines|] eqn:Hl; [|discriminate].
    apply gather_loop_settles. intros line e' Hin Hfind' Ht' m' a'.
    assert (Hstep : below (item_name line) n).
    { apply Relation_Operators.t_step. exists e, lines, line. auto. }
    apply (IH (n :: path) (item_name line) e'); auto.
    + now constructor.
    + intros x [<- | Hx]; [exact Hstored | now apply Hincl].
    + intros p [<- | Hp]; [exact Hstep|].
      eapply Relation_Operators.t_trans; [exact Hstep | now apply Hbelow].
    + cbn [List.length]. lia.
Qed.

(** One more frame than there are stored entities is enough. *)
Lemma acyclic_stack_bound :
  acyclic cb -> forall rec, settles cb rec (S (List.length cb)).
Proof.
  intros Hacc rec fuel Hle m a. destruct fuel as [|fuel]; [lia|].
  cbn [gatherRecipeData].
  destruct (requiredItems rec) as [lines|]; [|discriminate].
  apply gather_loop_settles. intros line e Hin Hfind Ht m' a'.
  apply (nested_settles Hacc fuel [] (item_name line) e); auto.
  - constructor.
  - intros x [].
  - intros p [].
  - unfold stored_names. rewrite length_map. cbn [List.length]. lia.
Qed.

Lemma stack_bound_is_enough :
  acyclic cb ->
  forall rec m a,
    gatherRecipeData cb (S (List.length cb)) rec m a <> Throw RangeError /\
    forall fuel, (S (List.length cb) <= fuel)%nat ->
      gatherRecipeData cb fuel rec m a
      = gatherRecipeData cb (S (List.length cb)) rec m a.
Proof.
  intros Hacc rec m a. pose proof (acyclic_stack_bound Hacc rec) as Hs. split.
  - apply Hs. lia.
  - intros fuel Hle. apply gather_mono; [exact Hle|]. apply Hs. lia.
Qed.

End StackBound.

Section ResolverFailures.

Variable cb : cookbook.

Local Abbreviation gather := (gatherRecipeData cb).
Local Abbreviation loop := (gather_loop cb).

Lemma reaches_cons line rest n :
  reaches cb (line :: rest) n <-> reaches cb [line] n \/ reaches cb rest n.
Proof.
  split.
  - intros H. inversion H as [ls l Hin | ls l e sub m Hin Hf Ht Hs Hr]; subst.
    + destruct Hin as [-> | Hin].
      * left. apply reaches_line. now left.
      * right. now apply reaches_line.
    + destruct Hin as [-> | Hin].
      * left. eapply reaches_sub; eauto. now left.
      * right. eapply reaches_sub; eauto.
  - intros [H | H];
      inversion H as [ls l Hin | ls l e sub m Hin Hf Ht Hs Hr]; subst.
    + destruct Hin as [-> | []]. apply reaches_line. now left.
    + destruct Hin as [-> | []]. eapply reaches_sub; eauto. now left.
    + apply reaches_line. now right.
    + eapply reaches_sub; eauto. now right.
Qed.

(** *** A summary needs every required name *)

Lemma gather_loop_found recur :
  (forall rec m a r sub n,
      recur rec m a = Ok r -> requiredItems rec = Some sub ->
      reaches cb sub n -> find_entry cb n <> None) ->
  forall items mult total agg r n,
    loop recur mult items total agg = Ok r ->
    reaches cb items n -> find_entry cb n <> None.
Proof.
  intros Hrec. induction items as [|line rest IH];
    intros mult total agg r n Hok Hn.
  - inversion Hn as [ls l Hin | ls l e sub m Hin]; subst; destruct Hin.
  - cbn [gather_loop] in Hok.
    destruct (find_entry cb (item_name line)) as [referenced|] eqn:Hfind;
      [|discriminate].
    apply reaches_cons in Hn as [Hn | Hn].
    + inversion Hn as [ls l Hin | ls l e sub m Hin Hf Ht Hs Hr]; subst;
        destruct Hin as [<- | []]; [congruence|].
      rewrite Hfind in Hf. injection Hf as ->.
      rewrite Ht in Hok. cbn [String.eqb Ascii.eqb Bool.eqb] in Hok.
      destruct (recur e (quantity line * mult) agg) as [res|] eqn:E;
        [|discriminate].
      eapply Hrec; eauto.
    + destruct (String.eqb (type referenced) "ingredient"); [eapply IH; eauto|].
      destruct (String.eqb (type referenced) "recipe"); [|discriminate].
      destruct (recur referenced (quantity line * mult) agg) as [res|];
        [|discriminate].
      cbn [bind] in Hok. eapply IH; eauto.
Qed.

Lemma gather_found fuel :
  forall rec m a r sub n,
    gather fuel rec m a = Ok r -> requiredItems rec = Some sub ->
    reaches cb sub n -> find_entry cb n <> None.
Proof.
  induction fuel as [|fuel IH]; intros rec m a r sub n Hok Hs Hn;
    cbn [gatherRecipeData] in Hok; [discriminate|].
  rewrite Hs in Hok. eapply gather_loop_found; eauto.
Qed.

(** *** The item reported missing is missing *)

Lemma gather_loop_missing recur x :
  (forall rec m a, recur rec m a = Throw (MissingItem x) ->
                   find_entry cb x = None) ->
  forall items mult total agg,
    loop recur mult items total agg = Throw (MissingItem x) ->
    find_entry cb x = None.
Proof.
  intros Hrec. induction items as [|line rest IH]; intros mult total agg;
    cbn [gather_loop]; [discriminate|].
  destruct (find_entry cb (item_name line)) as [referenced|] eqn:Hfind.
  - destruct (String.eqb (type referenced) "ingredient"); [apply IH|].
    destruct (String.eqb (type referenced) "recipe"); [|discriminate].
    destruct (recur referenced (quantity line * mult) agg) as [res|e] eqn:E;
      cbn [bind]; [apply IH|].
    intros [= ->]. eapply Hrec; eauto.
  - intros [= <-]. exact Hfind.
Qed.

Lemma gather_missing fuel :
  forall rec m a x,
    gather fuel rec m a = Throw (MissingItem x) -> find_entry cb x = None.
Proof.
  induction fuel as [|fuel IH]; intros rec m a x;
    cbn [gatherRecipeData]; [discriminate|].
  destruct (requiredItems rec); [|discriminate].
  apply gather_loop_missing. intros rec' m' a'. apply IH.
Qed.

(** *** A stored recipe has its lines *)

Lemma gather_loop_lines recur :
  (forall n e, find_entry cb n = Some e -> type e = "recipe" ->
               forall m a, recur e m a <> Throw TypeError) ->
  forall items mult total agg,
    loop recur mult items total agg <> Throw TypeError.
Proof.
  intros Hrec. induction items as [|line rest IH]; intros mult total agg;
    cbn [gather_loop]; [discriminate|].
  destruct (find_entry cb (item_name line)) as [referenced|] eqn:Hfind;
    [|discriminate].
  destruct (String.eqb (type referenced) "ingredient"); [apply IH|].
  destruct (String.eqb (type referenced) "recipe") eqn:Hr; [|discriminate].
  apply String.eqb_eq in Hr.
  destruct (recur referenced (quantity line * mult) agg) as [res|e] eqn:E;
    cbn [bind]; [apply IH|].
  rewrite <- E. eapply Hrec; eauto.
Qed.

Lemma gather_lines fuel :
  well_formed cb ->
  forall rec m a,
    requiredItems rec <> None -> gather fuel rec m a <> Throw TypeError.
Proof.
  intros Hwf. induction fuel as [|fuel IH]; intros rec m a Hl;
    cbn [gatherRecipeData]; [discriminate|].
  destruct (requiredItems rec); [|congruence].
  apply gather_loop_lines. intros n e Hfind Ht m' a'. apply IH.
  destruct (well_formed_tag _ _ _ Hwf Hfind)
    as [(Hi & _) | (_ & _ & lines & -> & _)]; [|discriminate].
  rewrite Hi in Ht. discriminate.
Qed.

Lemma well_formed_tagged : well_formed cb -> tagged cb.
Proof.
  intros Hwf n e Hfind.
  destruct (well_formed_tag _ _ _ Hwf Hfind) as [(H & _) | (H & _)]; auto.
Qed.

End ResolverFailures.

(* ================================================================= *)
(** ** The aggregation *)

Lemma assoc_None {A : Type} k (o : list (string * A)) :
  assoc k o = None <-> ~ In k (map fst o).
Proof.
  induction o as [|[k' v] r IH]; cbn [assoc map fst In]; [tauto|].
  destruct (String.eqb k' k) eqn:E.
  - apply String.eqb_eq in E. split; [discriminate|tauto].
  - apply String.eqb_neq in E. tauto.
Qed.

Lemma assoc_Some_In {A : Type} k (v : A) o :
  assoc k o = Some v -> In (k, v) o.
Proof.
  induction o as [|[k' v'] r IH]; cbn [assoc In]; [discriminate|].
  destruct (String.eqb k' k) eqn:E; [|auto].
  apply String.eqb_eq in E. intros [= <-]. left. now subst.
Qed.

Lemma In_assoc {A : Type} k (v : A) o :
  NoDup (map fst o) -> In (k, v) o -> assoc k o = Some v.
Proof.
  induction o as [|[k' v'] r IH]; cbn [assoc In map fst]; [tauto|].
  intros Hnd [[= -> ->] | Hin]; [now rewrite String.eqb_refl|].
  inversion Hnd as [|? ? Hk Hr]; subst.
  destruct (String.eqb k' k) eqn:E; [|auto].
  apply String.eqb_eq in E. subst. exfalso. apply Hk.
  change k with (fst (k, v)). now apply in_map.
Qed.

Lemma assoc_app {A : Type} k (o o' : list (string * A)) :
  assoc k (o ++ o') =
  match assoc k o with
  | Some v => Some v
  | None => assoc k o'
  end.
Proof.
  induction o as [|[k' v'] r IH]; cbn [assoc List.app]; [reflexivity|].
  destruct (String.eqb k' k); auto.
Qed.

Lemma update_keys k v o : map fst (update k v o) = map fst o.
Proof.
  induction o as [|[k' v'] r IH]; cbn [update map fst]; [reflexivity|].
  destruct (String.eqb k' k); cbn [map fst]; congruence.
Qed.

Lemma assoc_update_same k v o :
  assoc k o <> None -> assoc k (update k v o) = Some v.
Proof.
  induction o as [|[k' v'] r IH]; cbn [assoc update]; [congruence|].
  destruct (String.eqb k' k) eqn:E; cbn [assoc]; rewrite E; auto.
Qed.

Lemma assoc_update_other k k' v o :
  k' <> k -> assoc k' (update k v o) = assoc k' o.
Proof.
  intros Hne. induction o as [|[x v'] r IH]; cbn [assoc update]; [reflexivity|].
  destruct (String.eqb x k) eqn:E; cbn [assoc].
  - apply String.eqb_eq in E. subst.
    apply String.eqb_neq in Hne. rewrite String.eqb_sym in Hne.
    now rewrite Hne.
  - now rewrite IH.
Qed.

Lemma plain_not_proto k : plain k -> String.eqb k "__proto__" = false.
Proof.
  intros H. apply String.eqb_neq. intros ->. discriminate.
Qed.

Lemma assign_same o k v :
  plain k -> assoc k (assign o k v) = Some v.
Proof.
  intros Hk. unfold assign. destruct (assoc k o) eqn:E.
  - apply assoc_update_same. congruence.
  - rewrite (plain_not_proto _ Hk), assoc_app, E. cbn [assoc].
    now rewrite String.eqb_refl.
Qed.

Lemma assign_other o k k' v :
  k' <> k -> assoc k' (assign o k v) = assoc k' o.
Proof.
  intros Hne. unfold assign. destruct (assoc k o) eqn:E.
  - now apply assoc_update_other.
  - destruct (String.eqb k "__proto__"); [reflexivity|].
    rewrite assoc_app. destruct (assoc k' o); [reflexivity|]. cbn [assoc].
    apply String.eqb_neq in Hne. rewrite String.eqb_sym in Hne.
    now rewrite Hne.
Qed.

Lemma assign_keys o k v :
  plain k ->
  map fst (assign o k v) =
  match assoc k o with
  | Some _ => map fst o
  | None => map fst o ++ [k]
  end.
Proof.
  intros Hk. unfold assign. destruct (assoc k o).
  - apply update_keys.
  - rewrite (plain_not_proto _ Hk), map_app. reflexivity.
Qed.

(** On a clean aggregation and a plain name, [(aggregated[k] || 0) + q]
    is the recorded quantity plus [q]. *)
Lemma or_zero_plus_clean o k q :
  clean o -> plain k -> or_zero_plus o k q = VNum (recorded o k + q).
Proof.
  intros Hc Hk. unfold or_zero_plus, recorded.
  destruct (assoc k o) as [v|] eqn:E.
  - destruct (Hc _ _ E) as [z ->]. reflexivity.
  - unfold plain in Hk. now rewrite Hk.
Qed.

Lemma needed_app k ls ls' : needed k (ls ++ ls') = needed k ls + needed k ls'.
Proof.
  induction ls as [|[e q] r IH]; cbn [needed List.app]; [reflexivity|].
  rewrite IH. lia.
Qed.

Lemma number_add_assoc a b c :
  number_add (number_add a b) c = number_add a (number_add b c).
Proof. destruct a, b, c; cbn; try reflexivity. now rewrite Z.add_assoc. Qed.

Lemma number_add_0_l a : number_add (Num 0) a = a.
Proof. now destruct a. Qed.

Lemma number_add_0_r a : number_add a (Num 0) = a.
Proof. destruct a; cbn; [now rewrite Z.add_0_r | reflexivity]. Qed.

Lemma cook_time_app ls ls' :
  cook_time (ls ++ ls') = number_add (cook_time ls) (cook_time ls').
Proof.
  induction ls as [|[e q] r IH]; cbn [cook_time List.app].
  - now rewrite number_add_0_l.
  - now rewrite IH, number_add_assoc.
Qed.

Lemma adds_nil a : clean a -> adds a [] a.
Proof.
  intros Hc. repeat split; auto.
  - intros k. cbn. lia.
  - intros [H | []]. exact H.
Qed.

Lemma adds_app a ls a' ls' a'' :
  adds a ls a' -> adds a' ls' a'' -> adds a (ls ++ ls') a''.
Proof.
  intros (_ & Hq & Hk & Hnd) (Hc' & Hq' & Hk' & Hnd'). repeat split; auto.
  - intros k. rewrite Hq', Hq, needed_app. lia.
  - rewrite Hk', Hk, map_app, in_app_iff. tauto.
  - rewrite Hk', Hk, map_app, in_app_iff. tauto.
Qed.

(** The step of the loop on an ingredient. *)
Lemma adds_ingredient a e q :
  clean a -> plain (name e) ->
  adds a [(e, q)] (assign a (name e) (or_zero_plus a (name e) q)).
Proof.
  intros Hc Hk. rewrite (or_zero_plus_clean _ _ _ Hc Hk).
  split; [|split; [|split]].
  - intros k v. destruct (string_dec k (name e)) as [-> | Hne].
    + rewrite (assign_same _ _ _ Hk). intros [= <-]. eauto.
    + rewrite (assign_other _ _ _ _ Hne). apply Hc.
  - intros k. unfold recorded at 1. cbn [needed].
    destruct (String.eqb (name e) k) eqn:E.
    + apply String.eqb_eq in E. subst. rewrite (assign_same _ _ _ Hk). lia.
    + apply String.eqb_neq in E.
      rewrite assign_other by congruence. fold (recorded a k). lia.
  - intros k. rewrite (assign_keys _ _ _ Hk). cbn [map leaf_name fst In].
    destruct (assoc (name e) a) eqn:E.
    + split; [tauto|]. intros [H | [<- | []]]; [exact H|].
      destruct (in_dec string_dec (name e) (map fst a)) as [Hin|Hin]; [exact Hin|].
      apply assoc_None in Hin. congruence.
    + rewrite in_app_iff. cbn [In]. tauto.
  - intros Hnd. rewrite (assign_keys _ _ _ Hk).
    destruct (assoc (name e) a) eqn:E; [exact Hnd|].
    apply assoc_None in E. apply NoDup_app; [exact Hnd | |].
    + constructor; [intros [] | constructor].
    + intros x Hx [<- | []]. contradiction.
Qed.

(** *** The loop adds the contributions of the lines *)

Section GatherSums.

Variable cb : cookbook.

Lemma gather_loop_adds recur lrecur :
  (forall e m a t a',
      recur e m a = Ok (t, a') -> clean a ->
      Forall (fun l => plain (leaf_name l)) (lrecur e m) ->
      adds a (lrecur e m) a' /\ t = cook_time (lrecur e m)) ->
  forall lines mult total a t a',
    gather_loop cb recur mult lines total a = Ok (t, a') -> clean a ->
    Forall (fun l => plain (leaf_name l)) (lines_leaves cb lrecur mult lines) ->
    adds a (lines_leaves cb lrecur mult lines) a' /\
    t = number_add total (cook_time (lines_leaves cb lrecur mult lines)).
Proof.
  intros Hrec. induction lines as [|line rest IH];
    intros mult total a t a' Hok Hc Hplain;
    cbn [gather_loop lines_leaves] in *.
  - injection Hok as <- <-. split; [now apply adds_nil|].
    cbn [cook_time]. now rewrite number_add_0_r.
  - destruct (find_entry cb (item_name line)) as [e|]; [|discriminate].
    apply Forall_app in Hplain as [Hhead Hrest].
    destruct (String.eqb (type e) "ingredient").
    + inversion Hhead as [|? ? Hk _]; subst. cbn [leaf_name fst] in Hk.
      pose proof (adds_ingredient a e (quantity line * mult) Hc Hk) as Hstep.
      destruct (IH _ _ _ _ _ Hok (proj1 Hstep) Hrest) as [Hadds ->].
      split; [exact (adds_app _ _ _ _ _ Hstep Hadds)|].
      rewrite cook_time_app. cbn [cook_time].
      now rewrite number_add_0_r, number_add_assoc.
    + destruct (String.eqb (type e) "recipe"); [|discriminate].
      destruct (recur e (quantity line * mult) a) as [[ts asub]|x] eqn:E;
        [|discriminate].
      cbn [bind fst snd] in Hok.
      destruct (Hrec _ _ _ _ _ E Hc Hhead) as [Hstep ->].
      destruct (IH _ _ _ _ _ Hok (proj1 Hstep) Hrest) as [Hadds ->].
      split; [exact (adds_app _ _ _ _ _ Hstep Hadds)|].
      now rewrite cook_time_app, number_add_assoc.
Qed.

(** [gatherRecipeData] adds to [aggregated] the contribution of every path
    and returns their cook time. *)
Lemma gather_adds fuel :
  forall e m a t a',
    gatherRecipeData cb fuel e m a = Ok (t, a') -> clean a ->
    Forall (fun l => plain (leaf_name l)) (leaves cb fuel e m) ->
    adds a (leaves cb fuel e m) a' /\ t = cook_time (leaves cb fuel e m).
Proof.
  induction fuel as [|fuel IH]; intros e m a t a' Hok Hc Hplain;
    cbn [gatherRecipeData leaves] in *; [discriminate|].
  destruct (requiredItems e) as [lines|]; [|discriminate].
  destruct (gather_loop_adds _ _ IH _ _ _ _ _ _ Hok Hc Hplain) as [Hadds ->].
  split; [exact Hadds|]. now rewrite number_add_0_l.
Qed.

(** *** The contributions are to stored ingredients *)

Lemma lines_leaves_stored lrecur (P : cookbookEntry -> Prop) :
  (forall n e, find_entry cb n = Some e -> type e = "ingredient" -> P e) ->
  (forall e m, Forall (fun l => P (fst l)) (lrecur e m)) ->
  forall lines mult,
    Forall (fun l => P (fst l)) (lines_leaves cb lrecur mult lines).
Proof.
  intros HP Hrec. induction lines as [|line rest IH]; intros mult;
    cbn [lines_leaves]; [constructor|].
  apply Forall_app. split; [|apply IH].
  destruct (find_entry cb (item_name line)) as [e|] eqn:Hfind; [|constructor].
  destruct (String.eqb (type e) "ingredient") eqn:Hi.
  - apply String.eqb_eq in Hi. constructor; [|constructor]. eapply HP; eauto.
  - destruct (String.eqb (type e) "recipe"); [apply Hrec|constructor].
Qed.

Lemma leaves_stored (P : cookbookEntry -> Prop) :
  (forall n e, find_entry cb n = Some e -> type e = "ingredient" -> P e) ->
  forall depth e m, Forall (fun l => P (fst l)) (leaves cb depth e m).
Proof.
  intros HP. induction depth as [|depth IH]; intros e m; cbn [leaves];
    [constructor|].
  destruct (requiredItems e); [|constructor].
  now apply lines_leaves_stored.
Qed.

Lemma cook_time_minutes ls :
  Forall (fun l => cookTime (fst l) <> None) ls ->
  cook_time ls = Num (minutes ls).
Proof.
  induction 1 as [|[e q] r He _ IH]; cbn [cook_time minutes]; [reflexivity|].
  cbn [fst] in He. rewrite IH. destruct (cookTime e); [reflexivity|congruence].
Qed.

(** *** The item reported missing is required *)

Lemma gather_loop_missing_reached recur x :
  (forall e m a sub, recur e m a = Throw (MissingItem x) ->
                     requiredItems e = Some sub -> reaches cb sub x) ->
  (forall e m a, recur e m a = Throw (MissingItem x) ->
                 requiredItems e <> None) ->
  forall lines mult total a,
    gather_loop cb recur mult lines total a = Throw (MissingItem x) ->
    reaches cb lines x.
Proof.
  intros Hrec Hsome. induction lines as [|line rest IH]; intros mult total a;
    cbn [gather_loop]; [discriminate|].
  intros H. apply reaches_cons.
  destruct (find_entry cb (item_name line)) as [e|] eqn:Hfind.
  - destruct (String.eqb (type e) "ingredient"); [right; eapply IH; eauto|].
    destruct (String.eqb (type e) "recipe") eqn:Hr; [|discriminate].
    apply String.eqb_eq in Hr.
    destruct (recur e (quantity line * mult) a) as [res|y] eqn:E;
      cbn [bind] in H; [right; eapply IH; eauto|].
    injection H as ->. left.
    destruct (requiredItems e) as [sub|] eqn:Hsub;
      [|now apply Hsome in E].
    eapply reaches_sub; eauto. now left.
  - injection H as <-. left. apply reaches_line. now left.
Qed.

Lemma gather_missing_reached fuel :
  forall e m a x sub,
    gatherRecipeData cb fuel e m a = Throw (MissingItem x) ->
    requiredItems e = Some sub -> reaches cb sub x.
Proof.
  induction fuel as [|fuel IH]; intros e m a x sub;
    cbn [gatherRecipeData]; [discriminate|].
  intros H Hsub. rewrite Hsub in H.
  eapply gather_loop_missing_reached; eauto.
  intros e' m' a' H'. destruct fuel; cbn [gatherRecipeData] in H';
    [discriminate|]. destruct (requiredItems e'); [discriminate|discriminate].
Qed.

End GatherSums.

(** *** [Object.entries] reorders the properties *)

Lemma insert_index_perm {A : Type} i (x : A) l :
  Permutation (insert_index i x l) ((i, x) :: l).
Proof.
  induction l as [|[j y] r IH]; cbn [insert_index]; [reflexivity|].
  destruct (i <? j); [reflexivity|].
  rewrite IH. apply perm_swap.
Qed.

Lemma indexed_entries_perm o :
  Permutation (map snd (indexed_entries o))
              (filter (fun kv => is_index (fst kv)) o).
Proof.
  induction o as [|[k v] r IH]; cbn [indexed_entries filter fst];
    [reflexivity|].
  unfold is_index at 1. destruct (array_index k); [|exact IH].
  rewrite insert_index_perm. cbn [map snd]. now rewrite IH.
Qed.

Lemma named_entries_filter o :
  named_entries o = filter (fun kv => negb (is_index (fst kv))) o.
Proof.
  unfold named_entries. apply filter_ext. intros [k v]. unfold is_index.
  cbn [fst]. now destruct (array_index k).
Qed.

Lemma filter_split_perm {A : Type} (p : A -> bool) l :
  Permutation (filter p l ++ filter (fun x => negb (p x)) l) l.
Proof.
  induction l as [|x r IH]; cbn [filter]; [reflexivity|].
  destruct (p x); cbn [negb List.app].
  - now rewrite IH.
  - rewrite <- Permutation_middle. now rewrite IH.
Qed.

Lemma Object_entries_perm o : Permutation (Object_entries o) o.
Proof.
  unfold Object_entries.
  rewrite indexed_entries_perm, named_entries_filter.
  apply (filter_split_perm (fun kv => is_index (fst kv))).
Qed.

(** *** The summary of a recipe *)

(** On a well-formed acyclic cookbook that stores every name the recipe
    requires, and when no ingredient reached is named like a property of
    [Object.prototype], the summary lists each ingredient reached once,
    with the sum of the contributions of the paths that reach it, and its
    cook time is the sum of their cook times. *)
Theorem summary_sums_paths cb n e lines :
  well_formed cb -> acyclic cb -> n <> "" ->
  find_entry cb n = Some e -> type e = "recipe" ->
  requiredItems e = Some lines ->
  (forall x, reaches cb lines x -> find_entry cb x <> None) ->
  let ls := leaves cb (S (List.length cb)) e 1 in
  Forall (fun l => plain (leaf_name l)) ls ->
  forall fuel, (S (List.length cb) <= fuel)%nat ->
  exists ings,
    snd (get_summary cb fuel n) = Json (mkSummary n (Num (minutes ls)) ings) /\
    NoDup (map fst ings) /\
    forall k v, In (k, v) ings <->
                In k (map leaf_name ls) /\ v = VNum (needed k ls).
Proof.
  intros Hwf Hacc Hne Hfind Ht Hl Hpresent ls Hplain fuel Hle.
  destruct (stack_bound_is_enough cb Hacc e 1 []) as [Hstack Hsame].
  unfold get_summary. rewrite (is_empty_false _ Hne), Hfind, Ht.
  cbn [String.eqb Ascii.eqb Bool.eqb negb]. rewrite (Hsame fuel Hle).
  destruct (gatherRecipeData cb (S (List.length cb)) e 1 []) as [[t a]|x] eqn:E.
  - assert (Hclean : clean []) by (intros k v; discriminate).
    destruct (gather_adds cb _ _ _ _ _ _ E Hclean Hplain)
      as [(Hc & Hq & Hk & Hnd) ->].
    fold ls in Hq, Hk |- *.
    assert (Hkeys : NoDup (map fst a)) by (apply Hnd; constructor).
    exists (Object_entries a). cbn [snd]. split; [|split].
    + rewrite (find_entry_name _ _ _ Hfind). do 2 f_equal.
      apply cook_time_minutes.
      apply (leaves_stored cb (fun i => cookTime i <> None)).
      intros m i Hm Hi.
      destruct (well_formed_tag _ _ _ Hwf Hm)
        as [(_ & _ & ct & -> & _) | (Hr & _)]; [discriminate|congruence].
    + now rewrite (Permutation_map fst (Object_entries_perm a)).
    + intros k v.
      assert (Hperm : In (k, v) (Object_entries a) <-> In (k, v) a).
      { split; apply Permutation_in;
          [|symmetry]; apply Object_entries_perm. }
      rewrite Hperm.
      specialize (Hq k). specialize (Hk k).
      unfold recorded in Hq. cbn [assoc map In] in Hq, Hk. split.
      * intros Hin. pose proof (In_assoc _ _ _ Hkeys Hin) as Hv.
        rewrite Hv in Hq. destruct (Hc _ _ Hv) as [z ->]. split.
        -- apply (in_map fst) in Hin. cbn [fst] in Hin. tauto.
        -- f_equal. lia.
      * intros [Hin ->]. assert (Hin' : In k (map fst a)) by tauto.
        destruct (assoc k a) as [v|] eqn:Hv;
          [|now apply assoc_None in Hv].
        destruct (Hc _ _ Hv) as [z ->]. apply assoc_Some_In.
        rewrite Hv. do 2 f_equal. lia.
  - exfalso. destruct x as [m|t m| |].
    + apply (Hpresent m); [|now apply gather_missing in E].
      eapply gather_missing_reached; eauto.
    + now apply gather_tagged in E; [|apply well_formed_tagged].
    + apply gather_lines in E; [tauto|exact Hwf|congruence].
    + exact (Hstack eq_refl).
Qed.

(* ================================================================= *)
(** ** The statements of the specification *)

Lemma reachable_post_all cb entries :
  reachable cb -> reachable (post_all cb entries).
Proof.
  revert cb. induction entries as [|entry rest IH]; intros cb H; [exact H|].
  cbn [post_all fold_left]. apply IH. now apply reachable_post.
Qed.

Lemma reachable_bakery : reachable bakery.
Proof. apply reachable_post_all, reachable_empty. Qed.

Lemma reachable_pantry : reachable pantry.
Proof. apply reachable_post_all, reachable_empty. Qed.

Lemma get_summary_fst cb fuel n : fst (get_summary cb fuel n) = cb.
Proof.
  unfold get_summary. destruct (is_empty n); [reflexivity|].
  destruct (find_entry cb n) as [e|]; [|reflexivity].
  destruct (negb _); [reflexivity|].
  now destruct (gatherRecipeData cb fuel e 1 []) as [[t a]|].
Qed.

(** C2. [GET /summary] answers 400 when the name is absent from the
    cookbook or names an ingredient; when the named recipe requires,
    directly or transitively, a name that is absent, the answer is 400
    with no summary, whatever the cookbook, and on a well-formed acyclic
    cookbook the resolver raises the missing-item error for an absent
    name. *)
Theorem summary_failures cb fuel n :
  ((find_entry cb n = None \/
    exists e, find_entry cb n = Some e /\ type e = "ingredient") ->
   get_summary cb fuel n = (cb, Status 400)) /\
  (forall e lines missing,
      find_entry cb n = Some e -> type e = "recipe" ->
      requiredItems e = Some lines ->
      reaches cb lines missing -> find_entry cb missing = None ->
      get_summary cb fuel n = (cb, Status 400) /\
      (forall r, gatherRecipeData cb fuel e 1 [] <> Ok r) /\
      (well_formed cb -> acyclic cb ->
       forall fuel', (S (List.length cb) <= fuel')%nat ->
         exists m, find_entry cb m = None /\
                   gatherRecipeData cb fuel' e 1 [] = Throw (MissingItem m))).
Proof.
  split.
  - intros [Hnone | (e & Hfind & Ht)]; unfold get_summary;
      destruct (is_empty n); try reflexivity.
    + now rewrite Hnone.
    + rewrite Hfind, Ht. reflexivity.
  - intros e lines missing Hfind Ht Hl Hreach Hmiss.
    assert (Hno : forall fuel' r, gatherRecipeData cb fuel' e 1 [] <> Ok r).
    { intros fuel' r Hok.
      now apply (gather_found cb fuel' e 1 [] r lines missing Hok Hl Hreach). }
    split; [|split].
    + unfold get_summary. destruct (is_empty n); [reflexivity|].
      rewrite Hfind, Ht. cbn [String.eqb Ascii.eqb Bool.eqb negb].
      destruct (gatherRecipeData cb fuel e 1 []) as [[t a]|x] eqn:E;
        [|reflexivity].
      now apply Hno in E.
    + apply Hno.
    + intros Hwf Hacc fuel' Hle.
      pose proof (acyclic_stack_bound cb Hacc e) as Hs.
      destruct (gatherRecipeData cb fuel' e 1 []) as [r|x] eqn:E.
      * now apply Hno in E.
      * destruct x as [m|t m| |].
        -- exists m. split; [|reflexivity]. now apply gather_missing in E.
        -- now apply gather_tagged in E; [|apply well_formed_tagged].
        -- apply gather_lines in E; [tauto|exact Hwf|congruence].
        -- now apply (Hs fuel' Hle) in E.
Qed.

Lemma pantry_reaches_water :
  reaches pantry [mkItem "Brine" 2] "Water".
Proof.
  eapply (reaches_sub pantry _ (mkItem "Brine" 2));
    [now left | reflexivity | reflexivity | reflexivity |].
  apply (reaches_line pantry _ (mkItem "Water" 3)). right. now left.
Qed.

Lemma summary_failures_witness :
  get_summary pantry 5 "Salt" = (pantry, Status 400) /\
  get_summary pantry 5 "Pickles" = (pantry, Status 400) /\
  forall fuel', (S (List.length pantry) <= fuel')%nat ->
    exists m, find_entry pantry m = None /\
      gatherRecipeData pantry fuel'
        (mkEntry "Pickles" "recipe" None (Some [mkItem "Brine" 2])) 1 []
      = Throw (MissingItem m).
Proof.
  split.
  - apply (summary_failures pantry 5 "Salt"). right.
    eexists. split; reflexivity.
  - destruct (proj2 (summary_failures pantry 5 "Pickles")
                (mkEntry "Pickles" "recipe" None (Some [mkItem "Brine" 2]))
                [mkItem "Brine" 2] "Water"
                eq_refl eq_refl eq_refl pantry_reaches_water eq_refl)
      as (H400 & _ & Hmissing).
    split; [exact H400|]. apply Hmissing.
    + apply reachable_well_formed, reachable_pantry.
    + apply (ranked_acyclic pantry pantry_rank). reflexivity.
Defined.

(** C4. The names stored in a reachable cookbook are pairwise distinct; a
    candidate whose name is exactly the name of a stored entity, of either
    kind, is refused with status 400 and changes nothing; and the entity
    found under a name stays the one found under it after any request. *)
Theorem names_stay_distinct :
  (forall cb, reachable cb -> NoDup (stored_names cb)) /\
  (forall cb entry n,
      get_prop entry "name" = Ok (Some (JStr n)) ->
      In n (stored_names cb) ->
      post_entry cb entry = (cb, Status 400)) /\
  (forall cb entry n e,
      find_entry cb n = Some e ->
      find_entry (fst (post_entry cb entry)) n = Some e).
Proof.
  split; [|split].
  - intros cb H. now apply reachable_well_formed in H as [H _].
  - intros cb entry n Hn Hin.
    destruct (post_entry_not_refused cb entry)
      as [H | [(fields & ty & n' & -> & _ & _ & Hn' & _ & Hnew) | [-> _]]];
      [exact H | | discriminate].
    cbn [get_prop] in Hn. rewrite Hn' in Hn. injection Hn as ->.
    contradiction.
  - intros cb entry n e Hfind.
    destruct (post_entry_cases cb entry) as [-> | [[x ->] | (x & -> & _)]];
      cbn [fst]; auto.
    now rewrite find_entry_app, Hfind.
Qed.

Lemma names_stay_distinct_witness :
  NoDup (stored_names bakery) /\
  post_entry bakery (recipe_request "Flour" []) = (bakery, Status 400) /\
  find_entry (fst (post_entry bakery (ingredient_request "Flour" 9))) "Flour"
  = Some (mkEntry "Flour" "ingredient" (Some 2) None).
Proof.
  destruct names_stay_distinct as (Hdistinct & Hrefused & Hfirst).
  split; [|split].
  - apply Hdistinct, reachable_bakery.
  - apply (Hrefused bakery _ "Flour"); [reflexivity|]. now left.
  - apply Hfirst. reflexivity.
Defined.

(** The comparison of names is exact: a name that differs by case is a
    new name. *)
Example case_sensitive_names :
  snd (post_entry bakery (ingredient_request "flour" 9)) = Status 200.
Proof. reflexivity. Qed.

(** C5. [parse_handwriting] is a function of its argument alone; it
    returns the words of the input (runs of letters, ended by white space,
    [-] or [_], every other character dropped), each with its first letter
    in upper case and the others in lower case, one space apart, and it
    returns null exactly when the input has no word. *)
Theorem parse_handwriting_normalizes :
  (forall raw, parse_handwriting raw = normalizeName_spec raw) /\
  (forall raw, parse_handwriting raw = None <-> words raw = []) /\
  (forall raw, Forall is_word (words raw)) /\
  parse_handwriting "-burger-_bun" = Some "Burger Bun" /\
  parse_handwriting "   " = None /\
  parse_handwriting "!!!" = None /\
  parse_handwriting "hElLo  world" = Some "Hello World".
Proof.
  split; [exact parse_handwriting_refines|].
  split; [|split; [exact words_are_words | repeat split]].
  intros raw. rewrite parse_handwriting_refines. unfold normalizeName_spec.
  destruct (words raw); split; congruence.
Qed.

(** C6. On an acyclic cookbook [gatherRecipeData] terminates on every
    recipe, multiplier and aggregation: a stack of one frame more than
    there are stored entities is enough, whatever their number, and with
    any deeper stack the result is the same.  So the resolver is the total
    function [gatherRecipeData_total]. *)
Theorem gatherRecipeData_terminates cb :
  acyclic cb ->
  forall rec multiplier aggregated,
    gatherRecipeData_total cb rec multiplier aggregated <> Throw RangeError /\
    forall fuel, (S (List.length cb) <= fuel)%nat ->
      gatherRecipeData cb fuel rec multiplier aggregated
      = gatherRecipeData_total cb rec multiplier aggregated.
Proof.
  intros Hacc rec m a. unfold gatherRecipeData_total.
  now apply stack_bound_is_enough.
Qed.

Lemma gatherRecipeData_terminates_witness :
  gatherRecipeData_total bakery
    (mkEntry "Bread" "recipe" None
       (Some [mkItem "Dough" 1; mkItem "Flour" 1])) 3 []
  <> Throw RangeError /\
  forall fuel, (S (List.length bakery) <= fuel)%nat ->
    gatherRecipeData bakery fuel
      (mkEntry "Bread" "recipe" None
         (Some [mkItem "Dough" 1; mkItem "Flour" 1])) 3 []
    = gatherRecipeData_total bakery
        (mkEntry "Bread" "recipe" None
           (Some [mkItem "Dough" 1; mkItem "Flour" 1])) 3 [].
Proof.
  apply (gatherRecipeData_terminates bakery).
  apply (ranked_acyclic bakery bakery_rank). reflexivity.
Defined.

(** C7. [GET /summary] leaves the cookbook as it found it, and a second
    call with the same name on the cookbook left by the first returns the
    same answer. *)
Theorem summary_is_read_only cb fuel n :
  fst (get_summary cb fuel n) = cb /\
  get_summary (fst (get_summary cb fuel n)) fuel n = get_summary cb fuel n.
Proof.
  split; [apply get_summary_fst|]. now rewrite get_summary_fst.
Qed.

(** C8. Every entity of a reachable cookbook is tagged ["ingredient"] or
    ["recipe"], so [gatherRecipeData] never raises the invalid-type
    error. *)
Theorem invalid_type_unreachable cb :
  reachable cb ->
  Forall (fun e => type e = "ingredient" \/ type e = "recipe") cb /\
  forall fuel rec multiplier aggregated t n,
    gatherRecipeData cb fuel rec multiplier aggregated
    <> Throw (InvalidType t n).
Proof.
  intros H. apply reachable_well_formed in H. split.
  - destruct H as [_ H]. eapply Forall_impl; [|exact H].
    intros e [_ [(Ht & _) | (Ht & _)]]; auto.
  - intros fuel rec m a t n. apply gather_tagged.
    now apply well_formed_tagged.
Qed.

Lemma invalid_type_unreachable_witness :
  Forall (fun e => type e = "ingredient" \/ type e = "recipe") pantry /\
  forall fuel rec multiplier aggregated t n,
    gatherRecipeData pantry fuel rec multiplier aggregated
    <> Throw (InvalidType t n).
Proof. apply (invalid_type_unreachable pantry), reachable_pantry. Defined.

(** C10. A recipe without required items, under a non-empty name that is
    not in use, is stored, and its summary is the cook time 0 and no
    ingredient. *)
Theorem empty_recipe_summary cb fields n :
  passes_checks cb fields "recipe" n ->
  assoc "requiredItems" fields = Some (JArr []) ->
  snd (post_entry cb (JObj fields)) = Status 200 /\
  forall fuel,
    snd (get_summary (fst (post_entry cb (JObj fields))) (S fuel) n)
    = Json (mkSummary n (Num 0) []).
Proof.
  intros Hp Hitems. rewrite (post_entry_recipe _ _ _ Hp), Hitems.
  cbn [item_names set_size List.length Nat.eqb negb validate_items fst snd].
  split; [reflexivity|]. intros fuel.
  destruct Hp as (_ & _ & Hne & Hnew).
  unfold get_summary. rewrite (is_empty_false _ Hne), find_entry_app.
  apply find_entry_None in Hnew. rewrite Hnew.
  unfold find_entry. cbn [find name]. rewrite String.eqb_refl.
  reflexivity.
Qed.

Lemma empty_recipe_summary_witness :
  snd (post_entry bakery (recipe_request "Water" [])) = Status 200 /\
  forall fuel,
    snd (get_summary (fst (post_entry bakery (recipe_request "Water" [])))
           (S fuel) "Water")
    = Json (mkSummary "Water" (Num 0) []).
Proof.
  apply (empty_recipe_summary bakery); [|reflexivity].
  repeat split; [discriminate|].
  apply existsb_name_not_In. reflexivity.
Defined.




(** C3, at the candidate [{type: "recipe", name: "Soup", requiredItems:
    [null]}]: the array is mapped to the names of its elements before its
    elements are checked, so reading [null.name] raises a [TypeError] that
    leaves the handler; the request is not answered with status 400. *)
Theorem null_item_escapes_validation :
  post_entry [] (recipe_request "Soup" [JNull]) = ([], Uncaught TypeError) /\
  validate_items [JNull] = None.
Proof. split; reflexivity. Qed.

(** The bounds of the specification on [cookTime], and a repeated line. *)
Example cookTime_bounds :
  snd (post_entry [] (ingredient_request "Ice" (-1))) = Status 400 /\
  snd (post_entry [] (ingredient_request "Ice" 0)) = Status 200 /\
  snd (post_entry [] (recipe_request "Tea"
                        [line_request "Leaf" 1; line_request "Leaf" 2]))
  = Status 400.
Proof. repeat split. Qed.

(** The cookbook of the specification: flour reaches the bread along two
    paths, and the contributions add. *)
Example bread_summary :
  forall fuel,
    snd (get_summary bakery (S (S fuel)) "Bread")
    = Json (mkSummary "Bread" (Num 6) [("Flour", VNum 3)]).
Proof. reflexivity. Qed.

(** The general statement applies to it. *)
Example bread_sums_paths :
  exists ings,
    snd (get_summary bakery 4 "Bread") = Json (mkSummary "Bread" (Num 6) ings) /\
    NoDup (map fst ings) /\
    forall k v, In (k, v) ings <->
      In k ["Flour"; "Flour"] /\
      v = VNum (needed k (leaves bakery 4
                            (mkEntry "Bread" "recipe" None
                               (Some [mkItem "Dough" 1; mkItem "Flour" 1])) 1)).
Proof.
  apply (summary_sums_paths bakery "Bread"
           (mkEntry "Bread" "recipe" None
              (Some [mkItem "Dough" 1; mkItem "Flour" 1]))
           [mkItem "Dough" 1; mkItem "Flour" 1]);
    try reflexivity.
  - apply reachable_well_formed, reachable_bakery.
  - apply (ranked_acyclic bakery bakery_rank). reflexivity.
  - discriminate.
  - intros x Hx.
    apply (gather_found bakery 4
             (mkEntry "Bread" "recipe" None
                (Some [mkItem "Dough" 1; mkItem "Flour" 1]))
             1 [] (Num 6, [("Flour", VNum 3)])
             [mkItem "Dough" 1; mkItem "Flour" 1] x); [reflexivity..|exact Hx].
  - repeat constructor.
Qed.

(** C1, at an ingredient named [toString].  The line asks for 2 units, so
    the quantity of the specification is 2; but [aggregated["toString"]]
    reads the function inherited from [Object.prototype], which is not
    falsy, and [+] appends the quantity to the text of the function
    instead of adding it to 0. *)
Theorem prototype_name_breaks_sum :
  needed "toString"
    (leaves salad_bar 3
       (mkEntry "Salad" "recipe" None (Some [mkItem "toString" 2])) 1) = 2 /\
  forall fuel,
    snd (get_summary salad_bar (S (S fuel)) "Salad")
    = Json (mkSummary "Salad" (Num 2)
              [("toString", VStr "function toString() { [native code] }2")]).
Proof. split; reflexivity. Qed.

(** An ingredient named [__proto__] is not listed at all: the assignment
    to [aggregated["__proto__"]] goes to the setter of [Object.prototype],
    which ignores a string. *)
Example proto_ingredient_vanishes :
  forall fuel,
    snd (get_summary proto_bar (S (S fuel)) "Salad")
    = Json (mkSummary "Salad" (Num 2) []).
Proof. reflexivity. Qed.

(* ================================================================= *)
(** ** Further properties of the code *)

(** *** [parse_handwriting] and [POST /parse] *)

Lemma upper_char_letter c : is_letter c = true -> is_upper (upper_char c) = true.
Proof. ascii_cases c. Qed.

Lemma lower_char_letter c : is_letter c = true -> is_lower (lower_char c) = true.
Proof. ascii_cases c. Qed.

Lemma upper_char_upper c : is_upper c = true -> upper_char c = c.
Proof. ascii_cases c. Qed.

Lemma lower_char_lower c : is_lower c = true -> lower_char c = c.
Proof. ascii_cases c. Qed.

Lemma upper_is_letter c : is_upper c = true -> is_letter c = true.
Proof. unfold is_letter. now intros ->. Qed.

Lemma lower_is_letter c : is_lower c = true -> is_letter c = true.
Proof. unfold is_letter. intros ->. apply orb_true_r. Qed.

Lemma blank_is_separator : is_letter " " = false /\ is_separator " " = true.
Proof. split; reflexivity. Qed.

Lemma map_lower_letters r :
  string_forallb is_letter r = true ->
  string_forallb is_lower (map_string lower_char r) = true.
Proof.
  induction r as [|c r IH]; [reflexivity|]. cbn [string_forallb map_string].
  intros H. apply andb_true_iff in H as [Hc Hr].
  now rewrite (lower_char_letter _ Hc), (IH Hr).
Qed.

Lemma map_lower_fixed r :
  string_forallb is_lower r = true -> map_string lower_char r = r.
Proof.
  induction r as [|c r IH]; [reflexivity|]. cbn [string_forallb map_string].
  intros H. apply andb_true_iff in H as [Hc Hr].
  now rewrite (lower_char_lower _ Hc), (IH Hr).
Qed.

Lemma lower_letters r :
  string_forallb is_lower r = true -> string_forallb is_letter r = true.
Proof.
  induction r as [|c r IH]; [reflexivity|]. cbn [string_forallb].
  intros H. apply andb_true_iff in H as [Hc Hr].
  now rewrite (lower_is_letter _ Hc), (IH Hr).
Qed.

Lemma title_case_titled w : is_word w -> titled (title_case w) = true.
Proof.
  intros [Hl Hne]. destruct w as [|c r]; [congruence|].
  cbn [string_forallb] in Hl. apply andb_true_iff in Hl as [Hc Hr].
  cbn [title_case titled].
  now rewrite (upper_char_letter _ Hc), (map_lower_letters _ Hr).
Qed.

Lemma titled_word w : titled w = true -> is_word w.
Proof.
  destruct w as [|c r]; [discriminate|]. cbn [titled]. intros H.
  apply andb_true_iff in H as [Hc Hr]. split; [|discriminate].
  cbn [string_forallb].
  now rewrite (upper_is_letter _ Hc), (lower_letters _ Hr).
Qed.

Lemma titled_fixed w : titled w = true -> title_case w = w.
Proof.
  destruct w as [|c r]; [discriminate|]. cbn [titled title_case]. intros H.
  apply andb_true_iff in H as [Hc Hr].
  now rewrite (upper_char_upper _ Hc), (map_lower_fixed _ Hr).
Qed.

(** The words of a text that starts with a run of letters. *)
Lemma scan_letters_app w rest :
  string_forallb is_letter w = true ->
  scan (w ++ rest)%string = ((w ++ fst (scan rest))%string, snd (scan rest)).
Proof.
  induction w as [|c r IH]; cbn [string_forallb append].
  - intros _. now destruct (scan rest).
  - intros H. apply andb_true_iff in H as [Hc Hr]. cbn [scan].
    rewrite (IH Hr), Hc. reflexivity.
Qed.

Lemma scan_tail_words w ws :
  Forall is_word (w :: ws) ->
  scan (w ++ tail_words ws)%string = (w, ws).
Proof.
  revert w. induction ws as [|x r IH]; intros w H;
    inversion H as [|? ? [Hw Hne] Hr]; subst.
  - cbn [tail_words]. rewrite (scan_letters_app _ _ Hw). cbn [scan fst snd].
    now rewrite append_empty_r.
  - cbn [tail_words]. rewrite (scan_letters_app _ _ Hw). cbn [scan].
    rewrite (IH x Hr). cbn [fst snd].
    destruct blank_is_separator as [-> ->].
    inversion Hr as [|? ? [_ Hx] _]; subst.
    unfold cons_word. rewrite (is_empty_false _ Hx).
    now rewrite append_empty_r.
Qed.

(** The words of a text made of words one space apart are these words. *)
Lemma words_concat w ws :
  Forall is_word (w :: ws) -> words (String.concat " " (w :: ws)) = w :: ws.
Proof.
  intros H. rewrite concat_tail_words. unfold words.
  rewrite (scan_tail_words _ _ H). unfold cons_word.
  inversion H as [|? ? [_ Hne] _]; subst. now rewrite (is_empty_false _ Hne).
Qed.

Lemma parse_handwriting_Some raw s :
  parse_handwriting raw = Some s ->
  exists w ws, words raw = w :: ws /\
               s = String.concat " " (map title_case (w :: ws)).
Proof.
  rewrite parse_handwriting_refines. unfold normalizeName_spec.
  destruct (words raw) as [|w ws]; [discriminate|]. intros [= <-]. eauto.
Qed.

Lemma parsed_titled raw s :
  parse_handwriting raw = Some s ->
  exists w ws,
    s = String.concat " " (w :: ws) /\
    Forall (fun x => titled x = true) (w :: ws).
Proof.
  intros H. destruct (parse_handwriting_Some _ _ H) as (w & ws & Hw & ->).
  exists (title_case w), (map title_case ws). split; [reflexivity|].
  change (title_case w :: map title_case ws) with (map title_case (w :: ws)).
  apply Forall_map. rewrite <- Hw.
  eapply Forall_impl; [|apply words_are_words].
  intros x. apply title_case_titled.
Qed.

(** X2. What [parse_handwriting] returns is made of titled words, one
    space apart: each an upper-case letter followed by lower-case
    letters. *)
Theorem parse_handwriting_shape raw s :
  parse_handwriting raw = Some s ->
  exists w ws,
    s = String.concat " " (w :: ws) /\
    Forall (fun x => titled x = true) (w :: ws).
Proof. apply parsed_titled. Qed.

Lemma parse_handwriting_shape_witness :
  exists w ws,
    "Mac And Cheese" = String.concat " " (w :: ws) /\
    Forall (fun x => titled x = true) (w :: ws).
Proof. apply (parse_handwriting_shape "mAC_and--cheese!"). reflexivity. Defined.

(** X3. [parse_handwriting] leaves its own results as they are. *)
Theorem parse_handwriting_idempotent raw s :
  parse_handwriting raw = Some s -> parse_handwriting s = Some s.
Proof.
  intros H. destruct (parsed_titled _ _ H) as (w & ws & -> & Ht).
  assert (Hw : Forall is_word (w :: ws)).
  { eapply Forall_impl; [|exact Ht]. intros x. apply titled_word. }
  rewrite parse_handwriting_refines. unfold normalizeName_spec.
  rewrite (words_concat _ _ Hw). do 2 f_equal.
  clear -Ht. induction Ht as [|x r Hx _ IH]; [reflexivity|].
  cbn [map]. now rewrite (titled_fixed _ Hx), IH.
Qed.

Lemma parse_handwriting_idempotent_witness :
  parse_handwriting "Mac And Cheese" = Some "Mac And Cheese".
Proof.
  apply (parse_handwriting_idempotent "mAC_and--cheese!"). reflexivity.
Defined.

Lemma length_append (a b : string) :
  String.length (a ++ b)%string = (String.length a + String.length b)%nat.
Proof. induction a as [|c r IH]; cbn [append String.length]; [reflexivity|]. now rewrite IH. Qed.

Lemma length_map_string f s : String.length (map_string f s) = String.length s.
Proof. induction s as [|c r IH]; cbn [map_string String.length]; congruence. Qed.

Lemma length_title_case w : String.length (title_case w) = String.length w.
Proof.
  destruct w as [|c r]; [reflexivity|]. cbn [title_case String.length].
  now rewrite length_map_string.
Qed.

Lemma length_tail_words_title ws :
  String.length (tail_words (map title_case ws)) = String.length (tail_words ws).
Proof.
  induction ws as [|w r IH]; [reflexivity|]. cbn [map tail_words String.length].
  now rewrite !length_append, length_title_case, IH.
Qed.

(** The words and the spaces between them fit in the text they come
    from. *)
Lemma length_scan s :
  (String.length (fst (scan s)) + String.length (tail_words (snd (scan s)))
   <= String.length s)%nat.
Proof.
  induction s as [|c r IH]; [cbn; lia|].
  cbn [scan]. destruct (scan r) as [w ws]. cbn [fst snd] in IH.
  destruct (is_letter c); [|destruct (is_separator c)];
    cbn [fst snd String.length]; try lia.
  unfold cons_word. destruct w as [|c' w']; cbn [is_empty]; [cbn in *; lia|].
  cbn [tail_words String.length]. rewrite length_append.
  cbn [String.length] in *. lia.
Qed.

(** X4. [parse_handwriting] never returns more characters than it is
    given. *)
Theorem parse_handwriting_shrinks raw s :
  parse_handwriting raw = Some s ->
  (String.length s <= String.length raw)%nat.
Proof.
  intros H. destruct (parse_handwriting_Some _ _ H) as (w & ws & Hw & ->).
  cbn [map]. rewrite concat_tail_words, length_append, length_title_case,
    length_tail_words_title.
  pose proof (length_scan raw) as Hlen. unfold words in Hw.
  destruct (scan raw) as [w0 ws0]. cbn [fst snd] in Hlen.
  unfold cons_word in Hw. destruct w0 as [|c0 r0]; cbn [is_empty] in Hw.
  - subst ws0. cbn [tail_words String.length] in Hlen.
    rewrite length_append in Hlen. lia.
  - injection Hw as <- <-. lia.
Qed.

Lemma parse_handwriting_shrinks_witness :
  (String.length "Mac And Cheese" <= String.length "mAC_and--cheese!")%nat.
Proof. apply (parse_handwriting_shrinks "mAC_and--cheese!"). reflexivity. Defined.

(** X1. [POST /parse] answers with the normalised name when [input] is a
    string that holds a word, with status 400 and the text of the code when
    it is a string without a word, and lets a [TypeError] leave the handler
    when [input] is missing or is not a string. *)
Theorem post_parse_outcomes body :
  (forall msg,
      post_parse body = SendMsg msg <->
      exists raw w ws,
        get_prop body "input" = Ok (Some (JStr raw)) /\
        words raw = w :: ws /\
        msg = String.concat " " (map title_case (w :: ws))) /\
  (forall code text,
      post_parse body = SendText code text <->
      code = 400 /\ text = "this string is cooked" /\
      exists raw,
        get_prop body "input" = Ok (Some (JStr raw)) /\ words raw = []) /\
  (forall e,
      post_parse body = Escapes e <->
      e = TypeError /\
      forall raw, get_prop body "input" <> Ok (Some (JStr raw))).
Proof.
  unfold post_parse.
  destruct (get_prop body "input") as [[[| | |raw| |]|]|x] eqn:Hin.
  all: try (split; [|split]; intros;
            (split; [discriminate || (intros [= <-]; split; [reflexivity|discriminate])
                    | try (intros (? & ? & ? & ? & _); discriminate);
                      try (intros (_ & _ & ? & ? & _); discriminate);
                      try (intros [-> _]; reflexivity)])).
  - rewrite parse_handwriting_refines. unfold normalizeName_spec.
    destruct (words raw) as [|w ws] eqn:Hw; split; [| split | | split].
    + intros msg. split; [discriminate|].
      intros (r & w & ws & [= <-] & Hw' & _). congruence.
    + intros code text. split.
      * intros [= <- <-]. repeat split. eauto.
      * intros (-> & -> & _). reflexivity.
    + intros e. split; [discriminate|]. intros [_ H]. now contradiction (H raw).
    + intros msg. split.
      * intros [= <-]. exists raw, w, ws. auto.
      * intros (r & w' & ws' & [= <-] & Hw' & ->). congruence.
    + intros code text. split; [discriminate|].
      intros (_ & _ & r & [= <-] & Hw'). congruence.
    + intros e. split; [discriminate|]. intros [_ H]. now contradiction (H raw).
  - destruct body; cbn in Hin; try discriminate.
    injection Hin as <-. split; [|split]; intros; split;
      try discriminate.
    + intros (? & ? & ? & ? & _); discriminate.
    + intros (_ & _ & ? & ? & _); discriminate.
    + intros [= <-]. split; [reflexivity|discriminate].
    + intros [-> _]. reflexivity.
Qed.

(** *** [POST /entry] *)

(** X5. [POST /entry] answers 200 exactly when the candidate is an object
    with a non-empty string [name] that no stored entity has, and either
    the type ["ingredient"] with a number [cookTime] that is not negative,
    or the type ["recipe"] with an array [requiredItems] of valid lines
    with distinct names.  The names of the lines need not be stored. *)
Theorem post_entry_accepts_iff cb entry :
  snd (post_entry cb entry) = Status 200 <->
  exists fields n,
    entry = JObj fields /\
    assoc "name" fields = Some (JStr n) /\ n <> "" /\
    ~ In n (stored_names cb) /\
    ((assoc "type" fields = Some (JStr "ingredient") /\
      exists ct, assoc "cookTime" fields = Some (JNum ct) /\ 0 <= ct) \/
     (assoc "type" fields = Some (JStr "recipe") /\
      exists items lines,
        assoc "requiredItems" fields = Some (JArr items) /\
        valid_lines items lines)).
Proof.
  split.
  - intros H. destruct (post_entry cb entry) as [cb' r] eqn:Hpost.
    cbn [snd] in H. subst r.
    destruct (post_entry_stored _ _ _ Hpost)
      as (fields & ty & n & e & -> & (Hty & Hn & Hne & Hnew) & _ & _ & _ & Hkind).
    exists fields, n. repeat split; auto.
    destruct Hkind as [(-> & _ & ct & Hct & _ & Hge)
                      | (-> & _ & items & lines & Hri & _ & Hval)].
    + left. eauto.
    + right. eauto.
  - intros (fields & n & -> & Hn & Hne & Hnew & [[Hty Hct] | [Hty Hri]]).
    + now apply (ingredient_accepted_iff cb fields n).
    + now apply (recipe_accepted_iff cb fields n).
Qed.

(** X6. After a request answered 200 the lookup of the candidate's name
    finds the entity just stored, with the name and the type of the
    candidate, and every other lookup finds what it found before. *)
Theorem post_entry_then_find cb entry cb' :
  post_entry cb entry = (cb', Status 200) ->
  exists e,
    cb' = cb ++ [e] /\
    get_prop entry "name" = Ok (Some (JStr (name e))) /\
    get_prop entry "type" = Ok (Some (JStr (type e))) /\
    find_entry cb' (name e) = Some e /\
    forall m, m <> name e -> find_entry cb' m = find_entry cb m.
Proof.
  intros Hpost.
  destruct (post_entry_stored _ _ _ Hpost)
    as (fields & ty & n & e & -> & Hp & -> & <- & <- & _).
  destruct (passes_checks_object _ _ _ _ Hp) as [Hty Hn].
  destruct Hp as (_ & _ & _ & Hnew).
  exists e. repeat split; auto.
  - rewrite find_entry_app. apply find_entry_None in Hnew. rewrite Hnew.
    unfold find_entry. cbn [find]. now rewrite String.eqb_refl.
  - intros m Hm. rewrite find_entry_app.
    destruct (find_entry cb m); [reflexivity|].
    unfold find_entry. cbn [find].
    apply not_eq_sym, String.eqb_neq in Hm. now rewrite Hm.
Qed.

Lemma post_entry_then_find_witness :
  exists e,
    fst (post_entry bakery (ingredient_request "Yeast" 3)) = bakery ++ [e] /\
    get_prop (ingredient_request "Yeast" 3) "name"
    = Ok (Some (JStr (name e))) /\
    get_prop (ingredient_request "Yeast" 3) "type"
    = Ok (Some (JStr (type e))) /\
    find_entry (fst (post_entry bakery (ingredient_request "Yeast" 3)))
      (name e) = Some e /\
    forall m, m <> name e ->
      find_entry (fst (post_entry bakery (ingredient_request "Yeast" 3))) m
      = find_entry bakery m.
Proof.
  apply (post_entry_then_find bakery (ingredient_request "Yeast" 3)).
  reflexivity.
Defined.

(** X7. An exception leaves the handler of [POST /entry] exactly when the
    body is [null], or when the candidate passes the checks of its type
    and of its name as a recipe and its [requiredItems] is an array that
    holds [null]; the exception is a [TypeError] and nothing is stored. *)
Theorem post_entry_escapes_iff cb entry x :
  snd (post_entry cb entry) = Uncaught x <->
  x = TypeError /\
  (entry = JNull \/
   exists fields n items,
     entry = JObj fields /\ passes_checks cb fields "recipe" n /\
     assoc "requiredItems" fields = Some (JArr items) /\ In JNull items).
Proof.
  split.
  - destruct (post_entry_not_refused cb entry)
      as [H | [(fields & ty & n & -> & Hty & Hp) | [-> H]]].
    + rewrite H. discriminate.
    + destruct Hty as [-> | ->].
      * rewrite (post_entry_ingredient _ _ _ Hp).
        destruct (assoc "cookTime" fields) as [[| |ct| | |]|];
          try discriminate.
        destruct (ct <? 0); discriminate.
      * rewrite (post_entry_recipe _ _ _ Hp).
        destruct (assoc "requiredItems" fields) as [[| | | |items|]|] eqn:Hri;
          try discriminate.
        destruct (item_names items) as [itemNames|y] eqn:Hnames.
        -- destruct (negb _); [discriminate|].
           destruct (validate_items items); discriminate.
        -- intros [= <-]. split; [now apply item_names_TypeError in Hnames|].
           right. exists fields, n, items. repeat split; auto; try apply Hp.
           apply item_names_throws. eauto.
    + rewrite H. intros [= <-]. auto.
  - intros [-> [-> | (fields & n & items & -> & Hp & Hri & Hnull)]];
      [reflexivity|].
    rewrite (post_entry_recipe _ _ _ Hp), Hri.
    apply item_names_throws in Hnull as [y Hy]. rewrite Hy.
    now rewrite (item_names_TypeError _ _ Hy).
Qed.

(** *** What a successful expansion keeps *)

Lemma In_update k v o k' v' :
  In (k', v') (update k v o) -> In (k', v') o \/ (k' = k /\ v' = v).
Proof.
  induction o as [|[x y] r IH]; cbn [update In]; [tauto|].
  destruct (String.eqb x k) eqn:E; cbn [In].
  - apply String.eqb_eq in E. intros [[= <- <-] | H]; auto.
  - intros [H | H]; [auto|]. destruct (IH H); auto.
Qed.

Lemma In_assign o k v k' v' :
  In (k', v') (assign o k v) -> In (k', v') o \/ (k' = k /\ v' = v).
Proof.
  unfold assign. destruct (assoc k o); [apply In_update|].
  destruct (String.eqb k "__proto__"); [auto|].
  rewrite in_app_iff. cbn [In]. intros [H | [[= <- <-] | []]]; auto.
Qed.

Lemma assign_keys_cases o k v :
  map fst (assign o k v) = map fst o \/
  (~ In k (map fst o) /\ map fst (assign o k v) = map fst o ++ [k]).
Proof.
  unfold assign. destruct (assoc k o) eqn:E; [left; apply update_keys|].
  destruct (String.eqb k "__proto__"); [now left|].
  right. split; [now apply assoc_None|]. now rewrite map_app.
Qed.

Section GatherKeeps.

Variable cb : cookbook.

(** [P] is kept by the aggregation, [T] by the cook time, as long as the
    multipliers satisfy [Q] and the entities found satisfy [G]. *)
Variable P : object -> Prop.
Variable T : number -> Prop.
Variable Q : Z -> Prop.
Variable G : cookbookEntry -> Prop.

Hypothesis T_zero : T (Num 0).
Hypothesis T_add : forall x y, T x -> T y -> T (number_add x y).
Hypothesis T_ingredient :
  forall x ing q,
    find_entry cb x = Some ing -> type ing = "ingredient" -> Q q ->
    T (cookTime_times (cookTime ing) q).
Hypothesis P_ingredient :
  forall a x ing q,
    P a -> find_entry cb x = Some ing -> type ing = "ingredient" -> Q q ->
    P (assign a (name ing) (or_zero_plus a (name ing) q)).
Hypothesis Q_line :
  forall e lines line m,
    G e -> requiredItems e = Some lines -> In line lines -> Q m ->
    Q (quantity line * m).
Hypothesis G_found : forall x e, find_entry cb x = Some e -> G e.

Lemma gather_loop_keeps recur :
  (forall e m a t a',
      G e -> Q m -> P a -> recur e m a = Ok (t, a') -> T t /\ P a') ->
  forall lines mult total a t a',
    (forall line, In line lines -> Q (quantity line * mult)) ->
    T total -> P a ->
    gather_loop cb recur mult lines total a = Ok (t, a') -> T t /\ P a'.
Proof.
  intros Hrec. induction lines as [|line rest IH];
    intros mult total a t a' HQ HT HP; cbn [gather_loop].
  - intros [= <- <-]. auto.
  - assert (Hq : Q (quantity line * mult)) by (apply HQ; now left).
    assert (HQ' : forall l, In l rest -> Q (quantity l * mult))
      by (intros l Hl; apply HQ; now right).
    destruct (find_entry cb (item_name line)) as [e|] eqn:Hfind;
      [|discriminate].
    destruct (String.eqb (type e) "ingredient") eqn:Hi.
    + apply String.eqb_eq in Hi. apply IH; eauto.
    + destruct (String.eqb (type e) "recipe"); [|discriminate].
      destruct (recur e (quantity line * mult) a) as [[ts asub]|x] eqn:E;
        [|discriminate].
      cbn [bind fst snd].
      destruct (Hrec _ _ _ _ _ (G_found _ _ Hfind) Hq HP E) as [Hts Has].
      apply IH; auto.
Qed.

Lemma gather_keeps fuel :
  forall e m a t a',
    G e -> Q m -> P a ->
    gatherRecipeData cb fuel e m a = Ok (t, a') -> T t /\ P a'.
Proof.
  induction fuel as [|fuel IH]; intros e m a t a' HG HQ HP;
    cbn [gatherRecipeData]; [discriminate|].
  destruct (requiredItems e) as [lines|] eqn:Hl; [|discriminate].
  apply (gather_loop_keeps _ IH); auto.
  intros line Hin. eapply Q_line; eauto.
Qed.

End GatherKeeps.

(** The names under which [gatherRecipeData] records a quantity are names
    of stored entities tagged ["ingredient"], each recorded once. *)
Lemma gather_keys cb fuel e m t a :
  gatherRecipeData cb fuel e m [] = Ok (t, a) ->
  NoDup (map fst a) /\
  forall k, In k (map fst a) ->
            exists i, find_entry cb k = Some i /\ type i = "ingredient".
Proof.
  intros H.
  apply (gather_keeps cb
           (fun a => NoDup (map fst a) /\
                     forall k, In k (map fst a) ->
                       exists i, find_entry cb k = Some i /\
                                 type i = "ingredient")
           (fun _ => True) (fun _ => True) (fun _ => True))
    with (fuel := fuel) (e := e) (m := m) (a := []) (t := t); auto.
  - intros a0 x ing q [Hnd Hk] Hfind Hi _.
    destruct (assign_keys_cases a0 (name ing) (or_zero_plus a0 (name ing) q))
      as [-> | [Hnew ->]]; [auto|]. split.
    + apply NoDup_app; [exact Hnd | |].
      * constructor; [intros [] | constructor].
      * intros y Hy [<- | []]. contradiction.
    + intros k. rewrite in_app_iff. intros [Hin | [<- | []]]; [auto|].
      exists ing. split; [|exact Hi].
      now rewrite (find_entry_name _ _ _ Hfind).
  - split; [constructor | intros k []].
Qed.

(** X8. A summary bears the name asked for; its list of ingredients never
    repeats a name, and every name in it is the name of a stored entity
    tagged ["ingredient"]. *)
Theorem summary_lists_ingredients cb fuel n body :
  snd (get_summary cb fuel n) = Json body ->
  summary_name body = n /\
  NoDup (map fst (ingredients body)) /\
  forall k, In k (map fst (ingredients body)) ->
            exists i, find_entry cb k = Some i /\ type i = "ingredient".
Proof.
  unfold get_summary. destruct (is_empty n); [discriminate|].
  destruct (find_entry cb n) as [e|] eqn:Hfind; [|discriminate].
  destruct (negb _); [discriminate|].
  destruct (gatherRecipeData cb fuel e 1 []) as [[t a]|x] eqn:E;
    [|discriminate].
  cbn [snd]. intros [= <-]. cbn [summary_name ingredients].
  destruct (gather_keys _ _ _ _ _ _ E) as [Hnd Hk].
  pose proof (Permutation_map fst (Object_entries_perm a)) as Hperm.
  split; [exact (find_entry_name _ _ _ Hfind)|]. split.
  - now rewrite Hperm.
  - intros k Hin. apply Hk. now rewrite <- Hperm.
Qed.

Lemma summary_lists_ingredients_witness :
  summary_name (mkSummary "Bread" (Num 6) [("Flour", VNum 3)]) = "Bread" /\
  NoDup (map fst (ingredients (mkSummary "Bread" (Num 6) [("Flour", VNum 3)]))) /\
  forall k,
    In k (map fst (ingredients (mkSummary "Bread" (Num 6) [("Flour", VNum 3)]))) ->
    exists i, find_entry bakery k = Some i /\ type i = "ingredient".
Proof.
  apply (summary_lists_ingredients bakery 4 "Bread"). reflexivity.
Defined.

Lemma well_formed_lines cb x e lines :
  well_formed cb -> find_entry cb x = Some e ->
  requiredItems e = Some lines -> Forall (fun l => 1 <= quantity l) lines.
Proof.
  intros Hwf Hfind Hl.
  destruct (well_formed_tag _ _ _ Hwf Hfind)
    as [(_ & Hnone & _) | (_ & _ & ls & Hls & Hq & _)]; [congruence|].
  rewrite Hl in Hls. now injection Hls as ->.
Qed.

(** X9. On a reachable cookbook the cook time of a summary is never a
    negative number, and every quantity listed as a number is at least 1:
    cook times are not negative, quantities and multipliers are at least 1,
    and the code only multiplies and adds them. *)
Theorem summary_numbers cb fuel n body :
  reachable cb ->
  snd (get_summary cb fuel n) = Json body ->
  (forall z, summary_cookTime body = Num z -> 0 <= z) /\
  forall k z, In (k, VNum z) (ingredients body) -> 1 <= z.
Proof.
  intros Hr. apply reachable_well_formed in Hr.
  unfold get_summary. destruct (is_empty n); [discriminate|].
  destruct (find_entry cb n) as [e|] eqn:Hfind; [|discriminate].
  destruct (negb _); [discriminate|].
  destruct (gatherRecipeData cb fuel e 1 []) as [[t a]|x] eqn:E;
    [|discriminate].
  cbn [snd]. intros [= <-]. cbn [summary_cookTime ingredients].
  assert (H : (exists z, t = Num z /\ 0 <= z) /\
              forall k z, In (k, VNum z) a -> 1 <= z).
  { apply (gather_keeps cb
             (fun a => forall k z, In (k, VNum z) a -> 1 <= z)
             (fun t => exists z, t = Num z /\ 0 <= z)
             (fun m => 1 <= m)
             (fun e => forall lines, requiredItems e = Some lines ->
                                     Forall (fun l => 1 <= quantity l) lines))
      with (fuel := fuel) (e := e) (m := 1) (a := []); auto.
    - exists 0. split; [reflexivity|lia].
    - intros x y (zx & -> & Hx) (zy & -> & Hy). exists (zx + zy).
      split; [reflexivity|lia].
    - intros x ing q Hx Hi Hq.
      destruct (well_formed_tag _ _ _ Hr Hx)
        as [(_ & _ & ct & -> & Hct) | (Ht & _)]; [|congruence].
      exists (ct * q). split; [reflexivity|nia].
    - intros a0 x ing q Ha _ _ Hq k z Hin.
      apply In_assign in Hin as [Hin | [-> Hv]]; [eauto|].
      unfold or_zero_plus in Hv.
      destruct (assoc (name ing) a0) as [[q0|s]|] eqn:Hq0.
      + injection Hv as ->. apply assoc_Some_In, Ha in Hq0. lia.
      + destruct (is_empty s); [injection Hv as ->; lia | discriminate].
      + destruct (assoc (name ing) Object_prototype);
          [discriminate | injection Hv as ->; lia].
    - intros e0 lines line m He Hl Hin Hm.
      specialize (He lines Hl). rewrite Forall_forall in He.
      specialize (He line Hin). nia.
    - intros x e0 Hx lines. now apply (well_formed_lines cb x).
    - intros lines. now apply (well_formed_lines cb n).
    - lia.
    - intros k z []. }
  destruct H as [(z0 & -> & Hz0) Ha]. split; [now intros z [= <-]|].
  intros k z Hin. apply (Ha k).
  apply (Permutation_in _ (Object_entries_perm a)). exact Hin.
Qed.

Lemma summary_numbers_witness :
  (forall z, summary_cookTime (mkSummary "Bread" (Num 6) [("Flour", VNum 3)])
             = Num z -> 0 <= z) /\
  forall k z,
    In (k, VNum z) (ingredients (mkSummary "Bread" (Num 6) [("Flour", VNum 3)])) ->
    1 <= z.
Proof.
  apply (summary_numbers bakery 4 "Bread");
    [apply reachable_bakery | reflexivity].
Defined.

(** *** Cycles *)

(** When the loop succeeds, the expansion of every recipe it names has
    succeeded. *)
Lemma gather_loop_Ok_sub cb recur :
  forall lines mult total a r,
    gather_loop cb recur mult lines total a = Ok r ->
    forall line e,
      In line lines -> find_entry cb (item_name line) = Some e ->
      type e = "recipe" ->
      exists m a0 r0, recur e m a0 = Ok r0.
Proof.
  induction lines as [|l rest IH]; intros mult total a r Hok line e Hin Hfind Ht;
    [destruct Hin|].
  cbn [gather_loop] in Hok.
  destruct (find_entry cb (item_name l)) as [e0|] eqn:Hl; [|discriminate].
  destruct (String.eqb (type e0) "ingredient") eqn:Hi.
  - destruct Hin as [-> | Hin]; [|eapply IH; eauto].
    rewrite Hfind in Hl. injection Hl as <-. rewrite Ht in Hi. discriminate.
  - destruct (String.eqb (type e0) "recipe"); [|discriminate].
    destruct (recur e0 (quantity l * mult) a) as [sub|x] eqn:E; [|discriminate].
    cbn [bind] in Hok. destruct Hin as [-> | Hin]; [|eapply IH; eauto].
    rewrite Hfind in Hl. injection Hl as <-. eauto.
Qed.

Lemma cycle_step cb n :
  Relation_Operators.clos_trans string (requires cb) n n ->
  exists n', requires cb n n' /\
             Relation_Operators.clos_trans string (requires cb) n' n'.
Proof.
  intros H. pose proof H as H1. apply Operators_Properties.clos_trans_t1n in H1.
  inversion H1 as [y Hy | y z Hy Hyz]; subst.
  - exists n. auto.
  - exists y. split; [exact Hy|].
    apply Operators_Properties.clos_t1n_trans in Hyz.
    eapply Relation_Operators.t_trans; [exact Hyz|].
    now apply Relation_Operators.t_step.
Qed.

(** A recipe on a cycle of requirements is never expanded to the end. *)
Lemma cycle_never_Ok cb fuel :
  forall n e m a r,
    Relation_Operators.clos_trans string (requires cb) n n ->
    find_entry cb n = Some e ->
    gatherRecipeData cb fuel e m a <> Ok r.
Proof.
  induction fuel as [|fuel IH]; intros n e m a r Hcyc Hfind;
    cbn [gatherRecipeData]; [discriminate|].
  destruct (cycle_step _ _ Hcyc)
    as (n' & (e0 & lines & line & Hf & _ & Hl & Hin & <-) & Hcyc').
  rewrite Hfind in Hf. injection Hf as <-. rewrite Hl. intros Hok.
  destruct (cycle_step _ _ Hcyc') as (n'' & (e' & _ & _ & Hf' & Ht' & _) & _).
  destruct (gather_loop_Ok_sub _ _ _ _ _ _ _ Hok line e' Hin Hf' Ht')
    as (m' & a' & r' & Hsub).
  exact (IH _ _ _ _ _ Hcyc' Hf' Hsub).
Qed.

(** X10. [GET /summary] of a recipe that requires itself, directly or
    through other recipes, is answered with status 400 whatever the depth
    of stack: the recursion ends with the stack, and the [catch] turns the
    [RangeError] into the answer.  ([POST /entry] stores such recipes: it
    does not look at the names of the lines.) *)
Theorem cyclic_recipe_is_refused cb n :
  Relation_Operators.clos_trans string (requires cb) n n ->
  forall fuel, snd (get_summary cb fuel n) = Status 400.
Proof.
  intros Hcyc fuel. unfold get_summary.
  destruct (is_empty n); [reflexivity|].
  destruct (find_entry cb n) as [e|] eqn:Hfind; [|reflexivity].
  destruct (negb _); [reflexivity|].
  destruct (gatherRecipeData cb fuel e 1 []) as [[t a]|x] eqn:E; [|reflexivity].
  now apply (cycle_never_Ok _ _ _ _ _ _ _ Hcyc Hfind) in E.
Qed.

Lemma cyclic_recipe_is_refused_witness :
  snd (post_entry [] (recipe_request "Ouroboros" [line_request "Ouroboros" 1]))
  = Status 200 /\
  forall fuel, snd (get_summary ouroboros fuel "Ouroboros") = Status 400.
Proof.
  split; [reflexivity|].
  apply (cyclic_recipe_is_refused ouroboros "Ouroboros").
  apply Relation_Operators.t_step.
  exists (mkEntry "Ouroboros" "recipe" None (Some [mkItem "Ouroboros" 1])),
    [mkItem "Ouroboros" 1], (mkItem "Ouroboros" 1).
  repeat split. now left.
Defined.

(** *** Summaries and later insertions *)

Lemma find_entry_app_Some cb l x e :
  find_entry cb x = Some e -> find_entry (cb ++ l) x = Some e.
Proof. intros H. now rewrite find_entry_app, H. Qed.

Lemma gather_loop_app cb l recur recur' :
  (forall e m a r, recur e m a = Ok r -> recur' e m a = Ok r) ->
  forall lines mult total a r,
    gather_loop cb recur mult lines total a = Ok r ->
    gather_loop (cb ++ l) recur' mult lines total a = Ok r.
Proof.
  intros Hrec. induction lines as [|line rest IH]; intros mult total a r;
    cbn [gather_loop]; [auto|].
  destruct (find_entry cb (item_name line)) as [e|] eqn:Hfind; [|discriminate].
  rewrite (find_entry_app_Some _ l _ _ Hfind).
  destruct (String.eqb (type e) "ingredient"); [apply IH|].
  destruct (String.eqb (type e) "recipe"); [|discriminate].
  destruct (recur e (quantity line * mult) a) as [sub|x] eqn:E; [|discriminate].
  rewrite (Hrec _ _ _ _ E). cbn [bind]. apply IH.
Qed.

(** An expansion that succeeds is not changed by entities stored later. *)
Lemma gather_app cb l fuel :
  forall e m a r,
    gatherRecipeData cb fuel e m a = Ok r ->
    gatherRecipeData (cb ++ l) fuel e m a = Ok r.
Proof.
  induction fuel as [|fuel IH]; intros e m a r; cbn [gatherRecipeData];
    [discriminate|].
  destruct (requiredItems e); [|discriminate].
  now apply gather_loop_app.
Qed.

(** X11. A summary once given is given again, unchanged, after any
    further [POST /entry]: stored entities are never replaced. *)
Theorem summary_survives_insertion cb fuel n body entry :
  snd (get_summary cb fuel n) = Json body ->
  snd (get_summary (fst (post_entry cb entry)) fuel n) = Json body.
Proof.
  intros H.
  destruct (post_entry_cases cb entry) as [-> | [[x ->] | (e & -> & _)]];
    cbn [fst]; auto.
  revert H. unfold get_summary. destruct (is_empty n); [discriminate|].
  destruct (find_entry cb n) as [i|] eqn:Hfind; [|discriminate].
  rewrite (find_entry_app_Some _ [e] _ _ Hfind).
  destruct (negb _); [discriminate|].
  destruct (gatherRecipeData cb fuel i 1 []) as [[t a]|x] eqn:E;
    [|discriminate].
  now rewrite (gather_app _ [e] _ _ _ _ _ E).
Qed.

Lemma summary_survives_insertion_witness :
  snd (get_summary
         (fst (post_entry bakery (recipe_request "Toast" [line_request "Bread" 2])))
         4 "Bread")
  = Json (mkSummary "Bread" (Num 6) [("Flour", VNum 3)]).
Proof.
  apply (summary_survives_insertion bakery 4 "Bread"). reflexivity.
Defined.

(** *** The missing item *)

(** X12. The item named by the error of [gatherRecipeData] is absent from
    the cookbook and is required by the recipe, directly or through the
    recipes it names. *)
Theorem missing_item_is_required cb fuel e m a x lines :
  gatherRecipeData cb fuel e m a = Throw (MissingItem x) ->
  requiredItems e = Some lines ->
  find_entry cb x = None /\ reaches cb lines x.
Proof.
  intros H Hl. split.
  - eapply gather_missing; eauto.
  - eapply gather_missing_reached; eauto.
Qed.

Lemma missing_item_is_required_witness :
  find_entry pantry "Water" = None /\
  reaches pantry [mkItem "Brine" 2] "Water".
Proof.
  apply (missing_item_is_required pantry 3
           (mkEntry "Pickles" "recipe" None (Some [mkItem "Brine" 2])) 1 []);
    reflexivity.
Defined.

(** X13. On a well-formed acyclic cookbook, with a stack of one frame more
    than there are stored entities, the summary of a stored recipe is
    given exactly when every name the recipe requires, directly or
    transitively, is stored. *)
Theorem summary_given_iff cb fuel n e lines :
  well_formed cb -> acyclic cb -> n <> "" ->
  find_entry cb n = Some e -> type e = "recipe" ->
  requiredItems e = Some lines ->
  (S (List.length cb) <= fuel)%nat ->
  (exists body, snd (get_summary cb fuel n) = Json body) <->
  (forall x, reaches cb lines x -> find_entry cb x <> None).
Proof.
  intros Hwf Hacc Hne Hfind Ht Hl Hle.
  unfold get_summary. rewrite (is_empty_false _ Hne), Hfind, Ht.
  cbn [String.eqb Ascii.eqb Bool.eqb negb].
  destruct (gatherRecipeData cb fuel e 1 []) as [[t a]|y] eqn:E; cbn [snd].
  - split; [|eauto]. intros _ x Hx. eapply gather_found; eauto.
  - split; [intros [body H]; discriminate|]. intros Hall. exfalso.
    destruct y as [m|t m| |].
    + apply (Hall m); [|now apply gather_missing in E].
      eapply gather_missing_reached; eauto.
    + now apply gather_tagged in E; [|apply well_formed_tagged].
    + apply gather_lines in E; [tauto|exact Hwf|congruence].
    + now apply (acyclic_stack_bound cb Hacc e fuel Hle) in E.
Qed.

Lemma summary_given_iff_witness :
  (exists body, snd (get_summary pantry 4 "Pickles") = Json body) <->
  (forall x, reaches pantry [mkItem "Brine" 2] x -> find_entry pantry x <> None).
Proof.
  apply (summary_given_iff pantry 4 "Pickles"
           (mkEntry "Pickles" "recipe" None (Some [mkItem "Brine" 2])));
    try reflexivity.
  - apply reachable_well_formed, reachable_pantry.
  - apply (ranked_acyclic pantry pantry_rank). reflexivity.
  - discriminate.
Defined.

(** *** The multiplier *)

Lemma assign_keys_eq a a' k v v' :
  map fst a = map fst a' ->
  map fst (assign a k v) = map fst (assign a' k v').
Proof.
  intros H. unfold assign.
  destruct (assoc k a) eqn:E, (assoc k a') eqn:E'.
  - now rewrite !update_keys.
  - apply assoc_None in E'. rewrite <- H in E'. apply assoc_None in E'.
    congruence.
  - apply assoc_None in E. rewrite H in E. apply assoc_None in E.
    congruence.
  - destruct (String.eqb k "__proto__"); [exact H|].
    rewrite !map_app. now rewrite H.
Qed.

Section SameOutcome.

Variable cb : cookbook.

(** A relation between aggregations that the assignments of the loop
    keep, whatever the values assigned. *)
Variable R : object -> object -> Prop.
Hypothesis R_assign :
  forall a a' k v v', R a a' -> R (assign a k v) (assign a' k v').

Lemma gather_loop_same recur recur' :
  (forall e m a m' a',
      R a a' -> same_outcome R (recur e m a) (recur' e m' a')) ->
  forall lines mult total a mult' total' a',
    R a a' ->
    same_outcome R (gather_loop cb recur mult lines total a)
                   (gather_loop cb recur' mult' lines total' a').
Proof.
  intros Hrec. induction lines as [|line rest IH];
    intros mult total a mult' total' a' HR; cbn [gather_loop].
  - exact HR.
  - destruct (find_entry cb (item_name line)) as [e|]; [|reflexivity].
    destruct (String.eqb (type e) "ingredient"); [now apply IH, R_assign|].
    destruct (String.eqb (type e) "recipe"); [|reflexivity].
    specialize (Hrec e (quantity line * mult) a (quantity line * mult') a' HR).
    destruct (recur e (quantity line * mult) a) as [sub|x],
             (recur' e (quantity line * mult') a') as [sub'|y];
      cbn [same_outcome bind] in *; try contradiction.
    + now apply IH.
    + exact Hrec.
Qed.

Lemma gather_same fuel :
  forall e m a m' a',
    R a a' ->
    same_outcome R (gatherRecipeData cb fuel e m a)
                   (gatherRecipeData cb fuel e m' a').
Proof.
  induction fuel as [|fuel IH]; intros e m a m' a' HR;
    cbn [gatherRecipeData]; [reflexivity|].
  destruct (requiredItems e); [|reflexivity].
  now apply gather_loop_same.
Qed.

End SameOutcome.

(** X14. The multiplier and the aggregation passed to [gatherRecipeData]
    only change numbers: whether the call succeeds, and which exception it
    throws, depend on neither; and two calls that start from aggregations
    with the same names end with aggregations with the same names, in the
    same order. *)
Theorem multiplier_keeps_outcome cb fuel e m a m' a' :
  (forall x,
      gatherRecipeData cb fuel e m a = Throw x <->
      gatherRecipeData cb fuel e m' a' = Throw x) /\
  (map fst a = map fst a' ->
   forall t r t' r',
     gatherRecipeData cb fuel e m a = Ok (t, r) ->
     gatherRecipeData cb fuel e m' a' = Ok (t', r') ->
     map fst r = map fst r').
Proof.
  split.
  - intros x.
    pose proof (gather_same cb (fun _ _ => True) (fun _ _ _ _ _ _ => I)
                  fuel e m a m' a' I) as H.
    destruct (gatherRecipeData cb fuel e m a) as [p|y],
             (gatherRecipeData cb fuel e m' a') as [p'|y'];
      cbn [same_outcome] in H; try contradiction.
    + split; discriminate.
    + subst. tauto.
  - intros Hk t r t' r' H1 H2.
    pose proof (gather_same cb (fun o o' => map fst o = map fst o')
                  assign_keys_eq fuel e m a m' a' Hk) as H.
    now rewrite H1, H2 in H.
Qed.

Lemma multiplier_keeps_outcome_witness :
  (forall x,
      gatherRecipeData pantry 4
        (mkEntry "Pickles" "recipe" None (Some [mkItem "Brine" 2])) 1 []
      = Throw x <->
      gatherRecipeData pantry 4
        (mkEntry "Pickles" "recipe" None (Some [mkItem "Brine" 2])) 7
        [("Salt", VNum 2)]
      = Throw x) /\
  map fst [("Flour", VNum 3)] = map fst [("Flour", VNum 15)].
Proof.
  split.
  - apply (proj1 (multiplier_keeps_outcome pantry 4
                    (mkEntry "Pickles" "recipe" None (Some [mkItem "Brine" 2]))
                    1 [] 7 [("Salt", VNum 2)])).
  - apply (proj2 (multiplier_keeps_outcome bakery 4
                    (mkEntry "Bread" "recipe" None
                       (Some [mkItem "Dough" 1; mkItem "Flour" 1]))
                    1 [] 5 [])
                 eq_refl (Num 6) _ (Num 30) _);
      reflexivity.
Defined.

(** *** The cook time and the quantities of a summary agree *)

Lemma price_perm cb l l' : Permutation l l' -> price cb l = price cb l'.
Proof.
  induction 1 as [| [k v] l l' _ IH | [k v] [k' v'] l | l l' l'' _ IH _ IH'];
    cbn [price]; lia.
Qed.

Lemma sum_over_ext f g g' ks :
  (forall k, In k ks -> g k = g' k) -> sum_over f g ks = sum_over f g' ks.
Proof.
  induction ks as [|k r IH]; intros H; cbn [sum_over]; [reflexivity|].
  rewrite (H k (or_introl eq_refl)), IH; [reflexivity|].
  intros x Hx. apply H. now right.
Qed.

Lemma sum_over_add f g h ks :
  sum_over f (fun k => g k + h k) ks = sum_over f g ks + sum_over f h ks.
Proof. induction ks as [|k r IH]; cbn [sum_over]; lia. Qed.

Lemma sum_over_zero f g ks :
  (forall k, In k ks -> g k = 0) -> sum_over f g ks = 0.
Proof.
  induction ks as [|k r IH]; intros H; cbn [sum_over]; [reflexivity|].
  rewrite (H k (or_introl eq_refl)), IH; [lia|].
  intros x Hx. apply H. now right.
Qed.

(** The sum over distinct names of the contribution of one name. *)
Lemma sum_over_one f x q ks :
  NoDup ks -> In x ks ->
  sum_over f (fun k => if String.eqb x k then q else 0) ks = f x * q.
Proof.
  induction ks as [|k r IH]; intros Hnd Hin; [destruct Hin|].
  inversion Hnd as [|? ? Hk Hr]; subst. cbn [sum_over].
  destruct Hin as [-> | Hin].
  - rewrite String.eqb_refl, sum_over_zero; [lia|].
    intros y Hy. destruct (String.eqb_spec x y); [subst; contradiction|reflexivity].
  - destruct (String.eqb_spec x k); [subst; contradiction|].
    rewrite IH by assumption. lia.
Qed.

(** Grouping the contributions by name does not change their cost. *)
Lemma sum_over_needed f ls ks :
  NoDup ks -> (forall l, In l ls -> In (leaf_name l) ks) ->
  sum_over f (fun k => needed k ls) ks
  = fold_right (fun l acc => f (leaf_name l) * snd l + acc) 0 ls.
Proof.
  intros Hnd. induction ls as [|[e q] r IH]; intros Hin;
    cbn [needed fold_right leaf_name fst snd].
  - now apply sum_over_zero.
  - rewrite sum_over_add, IH by (intros l Hl; apply Hin; now right).
    rewrite sum_over_one; [reflexivity | exact Hnd |].
    apply (Hin (e, q)). now left.
Qed.

Lemma price_recorded cb a :
  NoDup (map fst a) -> clean a ->
  price cb a = sum_over (unit_cook_time cb) (recorded a) (map fst a).
Proof.
  induction a as [|[k v] r IH]; intros Hnd Hc; [reflexivity|].
  cbn [map fst] in Hnd. inversion Hnd as [|? ? Hk Hr]; subst.
  cbn [price map fst sum_over].
  assert (Hv : exists z, v = VNum z).
  { apply (Hc k). cbn [assoc]. now rewrite String.eqb_refl. }
  destruct Hv as [z ->].
  assert (Hrest : clean r).
  { intros x v Hx. apply (Hc x). cbn [assoc].
    destruct (String.eqb_spec k x); [|exact Hx].
    subst. apply assoc_Some_In, (in_map fst) in Hx. contradiction. }
  rewrite (IH Hr Hrest). unfold recorded at 2. cbn [assoc].
  rewrite String.eqb_refl. f_equal.
  apply sum_over_ext. intros x Hx. unfold recorded. cbn [assoc].
  destruct (String.eqb_spec k x); [subst; contradiction|reflexivity].
Qed.

Lemma minutes_fold cb ls :
  Forall (fun l => find_entry cb (leaf_name l) = Some (fst l)) ls ->
  minutes ls
  = fold_right (fun l acc => unit_cook_time cb (leaf_name l) * snd l + acc) 0 ls.
Proof.
  induction 1 as [|[e q] r He _ IH]; cbn [minutes fold_right fst snd];
    [reflexivity|].
  unfold unit_cook_time at 1. rewrite He, IH. cbn [fst].
  destruct (cookTime e); lia.
Qed.

(** In the arithmetic of integers, the cook time of a summary is the cost
    of its list of ingredients. *)
Lemma summary_price cb fuel n body :
  reachable cb ->
  Forall plain (stored_names cb) ->
  snd (get_summary cb fuel n) = Json body ->
  summary_cookTime body = Num (price cb (ingredients body)).
Proof.
  intros Hr Hplain. apply reachable_well_formed in Hr.
  unfold get_summary. destruct (is_empty n); [discriminate|].
  destruct (find_entry cb n) as [e|] eqn:Hfind; [|discriminate].
  destruct (negb _); [discriminate|].
  destruct (gatherRecipeData cb fuel e 1 []) as [[t a]|x] eqn:E;
    [|discriminate].
  cbn [snd]. intros [= <-]. cbn [summary_cookTime ingredients].
  rewrite Forall_forall in Hplain.
  assert (Hleaf : Forall (fun l => plain (name (fst l)) /\
                                   find_entry cb (name (fst l)) = Some (fst l) /\
                                   cookTime (fst l) <> None)
                         (leaves cb fuel e 1)).
  { apply (leaves_stored cb (fun i => plain (name i) /\
                                      find_entry cb (name i) = Some i /\
                                      cookTime i <> None)).
    intros x i Hx Hi. pose proof (find_entry_name _ _ _ Hx) as Hn.
    split; [|split].
    - apply Hplain. apply in_map. exact (find_entry_In _ _ _ Hx).
    - now rewrite Hn.
    - destruct (well_formed_tag _ _ _ Hr Hx)
        as [(_ & _ & ct & -> & _) | (Ht & _)]; [discriminate|congruence]. }
  assert (Hclean : clean []) by (intros k v; discriminate).
  destruct (gather_adds cb _ _ _ _ _ _ E Hclean) as [(Hc & Hq & Hk & Hnd) ->].
  { eapply Forall_impl; [|exact Hleaf]. now intros l [H _]. }
  assert (Hkeys : NoDup (map fst a)) by (apply Hnd; constructor).
  rewrite (price_perm cb _ _ (Object_entries_perm a)).
  rewrite (price_recorded cb a Hkeys Hc).
  rewrite (sum_over_ext _ _ (fun k => needed k (leaves cb fuel e 1))).
  2: { intros k _. rewrite Hq. unfold recorded. cbn [assoc]. lia. }
  rewrite sum_over_needed; [|exact Hkeys|].
  2: { intros l Hl. apply Hk. right. now apply in_map. }
  rewrite cook_time_minutes.
  2: { eapply Forall_impl; [|exact Hleaf]. now intros l (_ & _ & H). }
  f_equal. apply minutes_fold.
  eapply Forall_impl; [|exact Hleaf]. now intros l (_ & H & _).
Qed.

(** X15. On a reachable cookbook where no stored name is the name of a
    property of [Object.prototype], and when the cook time and the
    quantities of a summary are below [2 ^ 53] (the range in which the
    sums and the products of the code are exact), the cook time of the
    summary is the cost of its list of ingredients: the sum, over the
    ingredients listed, of the quantity listed times the cook time
    stored. *)
Theorem summary_cookTime_is_price cb fuel n body :
  reachable cb ->
  Forall plain (stored_names cb) ->
  snd (get_summary cb fuel n) = Json body ->
  price cb (ingredients body) < exact_limit ->
  (forall k z, In (k, VNum z) (ingredients body) -> z < exact_limit) ->
  summary_cookTime body = Num (price cb (ingredients body)).
Proof.
  intros Hr Hplain Hbody _ _. now apply (summary_price cb fuel n).
Qed.

Lemma summary_cookTime_is_price_witness :
  summary_cookTime (mkSummary "Bread" (Num 6) [("Flour", VNum 3)])
  = Num (price bakery (ingredients (mkSummary "Bread" (Num 6) [("Flour", VNum 3)]))).
Proof.
  apply (summary_cookTime_is_price bakery 4 "Bread").
  - apply reachable_bakery.
  - repeat constructor.
  - reflexivity.
  - reflexivity.
  - intros k z [[= <- <-] | []]. reflexivity.
Defined.

(** *** What [parse_handwriting] does not look at *)

Lemma scan_replace_dashes s : scan (replace_dashes s) = scan s.
Proof.
  unfold replace_dashes. induction s as [|c r IH]; [reflexivity|].
  cbn [map_string scan]. rewrite IH. destruct (scan r) as [w ws].
  destruct (is_dash c) eqn:Hd; [|reflexivity].
  destruct blank_is_separator as [-> ->].
  destruct (is_letter c) eqn:Hl; [apply letter_not_dash in Hl; congruence|].
  unfold is_separator. now rewrite Hd, orb_true_r.
Qed.

Lemma words_replace_dashes s : words (replace_dashes s) = words s.
Proof. unfold words. now rewrite scan_replace_dashes. Qed.

Section CaseMap.

(** A change of case: it keeps letters letters and separators separators,
    and is forgotten by a further change of case. *)
Variable f : ascii -> ascii.
Hypothesis f_letter : forall c, is_letter (f c) = is_letter c.
Hypothesis f_separator : forall c, is_separator (f c) = is_separator c.
Hypothesis f_upper : forall c, upper_char (f c) = upper_char c.
Hypothesis f_lower : forall c, lower_char (f c) = lower_char c.

Lemma is_empty_map_string w : is_empty (map_string f w) = is_empty w.
Proof. now destruct w. Qed.

Lemma scan_case s :
  scan (map_string f s)
  = (map_string f (fst (scan s)), map (map_string f) (snd (scan s))).
Proof.
  induction s as [|c r IH]; [reflexivity|].
  cbn [map_string scan]. rewrite IH, f_letter, f_separator.
  destruct (scan r) as [w ws]. cbn [fst snd].
  destruct (is_letter c); [reflexivity|].
  destruct (is_separator c); [|reflexivity]. cbn [fst snd]. f_equal.
  unfold cons_word. rewrite is_empty_map_string. now destruct (is_empty w).
Qed.

Lemma title_case_case w : title_case (map_string f w) = title_case w.
Proof.
  destruct w as [|c r]; [reflexivity|]. cbn [map_string title_case].
  rewrite f_upper. f_equal.
  induction r as [|c' r' IH]; [reflexivity|]. cbn [map_string].
  now rewrite f_lower, IH.
Qed.

Lemma map_title_case ws :
  map title_case (map (map_string f) ws) = map title_case ws.
Proof. rewrite map_map. apply map_ext. exact title_case_case. Qed.

Lemma parse_handwriting_case s :
  parse_handwriting (map_string f s) = parse_handwriting s.
Proof.
  rewrite !parse_handwriting_refines. unfold normalizeName_spec, words.
  rewrite scan_case. destruct (scan s) as [w ws]. cbn [fst snd].
  unfold cons_word. rewrite is_empty_map_string.
  destruct (is_empty w).
  - destruct ws as [|x r]; [reflexivity|].
    cbn [map]. now rewrite title_case_case, map_title_case.
  - cbn [map]. now rewrite title_case_case, map_title_case.
Qed.

End CaseMap.

Lemma lower_keeps_letter c : is_letter (lower_char c) = is_letter c.
Proof. ascii_cases c. Qed.
Lemma lower_keeps_separator c : is_separator (lower_char c) = is_separator c.
Proof. ascii_cases c. Qed.
Lemma upper_lower c : upper_char (lower_char c) = upper_char c.
Proof. ascii_cases c. Qed.
Lemma lower_lower c : lower_char (lower_char c) = lower_char c.
Proof. ascii_cases c. Qed.
Lemma upper_keeps_letter c : is_letter (upper_char c) = is_letter c.
Proof. ascii_cases c. Qed.
Lemma upper_keeps_separator c : is_separator (upper_char c) = is_separator c.
Proof. ascii_cases c. Qed.
Lemma upper_upper c : upper_char (upper_char c) = upper_char c.
Proof. ascii_cases c. Qed.
Lemma lower_upper c : lower_char (upper_char c) = lower_char c.
Proof. ascii_cases c. Qed.

(** X16. The result of [parse_handwriting] depends neither on the case of
    the letters A-Z and a-z of its input nor on whether its words are
    separated by [-], [_] or spaces. *)
Theorem parse_handwriting_ignores raw :
  parse_handwriting (map_string lower_char raw) = parse_handwriting raw /\
  parse_handwriting (map_string upper_char raw) = parse_handwriting raw /\
  parse_handwriting (replace_dashes raw) = parse_handwriting raw.
Proof.
  split; [|split].
  - apply parse_handwriting_case;
      auto using lower_keeps_letter, lower_keeps_separator, upper_lower,
        lower_lower.
  - apply parse_handwriting_case;
      auto using upper_keeps_letter, upper_keeps_separator, upper_upper,
        lower_upper.
  - rewrite !parse_handwriting_refines. unfold normalizeName_spec.
    now rewrite words_replace_dashes.
Qed.

(** X17. On a well-formed acyclic cookbook that stores every name a recipe
    requires, when no ingredient reached is named like a property of
    [Object.prototype] and the cook time and the quantities below are less
    than [2 ^ 53] (the range in which the sums and the products of the
    code are exact), the summary lists each ingredient reached once, with
    the sum over the paths that reach it of the product of the quantities
    along the path, and its cook time is the sum over the paths of that
    product times the cook time of the ingredient. *)
Theorem summary_adds_every_path cb n e lines :
  well_formed cb -> acyclic cb -> n <> "" ->
  find_entry cb n = Some e -> type e = "recipe" ->
  requiredItems e = Some lines ->
  (forall x, reaches cb lines x -> find_entry cb x <> None) ->
  Forall (fun l => plain (leaf_name l)) (leaves cb (S (List.length cb)) e 1) ->
  minutes (leaves cb (S (List.length cb)) e 1) < exact_limit ->
  Forall (fun l => needed (leaf_name l) (leaves cb (S (List.length cb)) e 1)
                   < exact_limit)
         (leaves cb (S (List.length cb)) e 1) ->
  forall fuel, (S (List.length cb) <= fuel)%nat ->
  exists ings,
    snd (get_summary cb fuel n)
    = Json (mkSummary n (Num (minutes (leaves cb (S (List.length cb)) e 1))) ings) /\
    NoDup (map fst ings) /\
    forall k v,
      In (k, v) ings <->
      In k (map leaf_name (leaves cb (S (List.length cb)) e 1)) /\
      v = VNum (needed k (leaves cb (S (List.length cb)) e 1)).
Proof.
  intros Hwf Hacc Hne Hfind Ht Hl Hall Hplain _ _.
  exact (summary_sums_paths cb n e lines Hwf Hacc Hne Hfind Ht Hl Hall Hplain).
Qed.

Lemma summary_adds_every_path_witness :
  exists ings,
    snd (get_summary bakery 4 "Bread") = Json (mkSummary "Bread" (Num 6) ings) /\
    NoDup (map fst ings) /\
    forall k v, In (k, v) ings <->
      In k ["Flour"; "Flour"] /\
      v = VNum (needed k (leaves bakery 4
                            (mkEntry "Bread" "recipe" None
                               (Some [mkItem "Dough" 1; mkItem "Flour" 1])) 1)).
Proof.
  apply (summary_adds_every_path bakery "Bread"
           (mkEntry "Bread" "recipe" None
              (Some [mkItem "Dough" 1; mkItem "Flour" 1]))
           [mkItem "Dough" 1; mkItem "Flour" 1]);
    try reflexivity.
  - apply reachable_well_formed, reachable_bakery.
  - apply (ranked_acyclic bakery bakery_rank). reflexivity.
  - discriminate.
  - intros x Hx.
    apply (gather_found bakery 4
             (mkEntry "Bread" "recipe" None
                (Some [mkItem "Dough" 1; mkItem "Flour" 1]))
             1 [] (Num 6, [("Flour", VNum 3)])
             [mkItem "Dough" 1; mkItem "Flour" 1] x); [reflexivity..|exact Hx].
  - repeat constructor.
  - repeat constructor.
Defined.
